(** * A shallow embedding of the logging server

    The development follows the source files of the repository:

    - [logging_worker_thread.py]: [LoggingWorkerThread], one thread per
      accepted connection, which reads length-prefixed pickled log records
      from its socket and hands them to the [logging] module;
    - [logging_server.py]: [LoggingServer], the process that owns the
      listening socket, spawns the workers and implements the two-stage
      shutdown;
    - [sample_server.py]: the program that starts a server and stops it on
      a command read from the standard input.

    Everything outside the two classes (the socket, [select], the other
    threads that set flags, [pickle], [logging]) is the environment.  It is
    modelled by explicit scripts: the outcomes of the successive [select]
    calls, the bytes the peer puts on the wire, and countdowns for the flags
    that other threads set.  Library calls that can raise are partial: the
    code catches nothing, so their exceptions leave the method that made
    the call.  Calls to the collaborators are recorded, oldest first, in a
    trace. *)

From Stdlib Require Import String List NArith Lia Bool PeanoNat.
From Stdlib.Strings Require Import Byte.
Import ListNotations.

Set Implicit Arguments.

(** Python [bytes]. *)
Definition bytes := list byte.

(** ** [struct.pack('>L', n)] and [struct.unpack('>L', b)] *)

Module Struct.

(** The low eight bits of [n] as a byte. *)
Definition byte_of_N (n : N) : byte :=
  match Byte.of_N (n mod 256) with
  | Some b => b
  | None => x00
  end.

(** The wire encoding of a length, [uint32] big-endian: what
    [struct.pack('>L', n)] produces on the sending side. *)
Definition pack_L (n : N) : bytes :=
  [byte_of_N (n / 16777216); byte_of_N (n / 65536);
   byte_of_N (n / 256); byte_of_N n].

(** [struct.unpack('>L', b)[0]]: defined on exactly four bytes,
    [struct.error] (here [None]) on any other length. *)
Definition unpack_L (b : bytes) : option N :=
  match b with
  | [b3; b2; b1; b0] =>
      Some (((Byte.to_N b3 * 256 + Byte.to_N b2) * 256
             + Byte.to_N b1) * 256 + Byte.to_N b0)%N
  | _ => None
  end.

End Struct.

(** ** Outcomes of a computation of the model *)

(** Exceptions that can escape a method. *)
Inductive exn : Type :=
| UnpicklingError   (* raised by [pickle.loads] or [logging.makeLogRecord] *)
| StructError       (* raised by [struct.unpack] *)
| OSError           (* raised by a socket operation *)
| LoggingError      (* raised by [logging.getLogger] or [Logger.handle] *)
| ConfigError       (* raised by [logging.config.dictConfig] *)
| RuntimeError.     (* raised by [Thread.start] *)

(** A computation returns, raises, or is still waiting when the script of
    the environment ends ([Wait]: the thread is blocked in a poll loop). *)
Inductive outcome (A : Type) : Type :=
| Ret (a : A)
| Raise (e : exn)
| Wait.

Arguments Raise {A} e.
Arguments Wait {A}.

(** A monotonic flag set by another thread: [None] when it is never set,
    [Some n] when the next [n] reads still see it unset. *)
Definition flag := option nat.

Definition flag_read (f : flag) : bool * flag :=
  match f with
  | None => (false, None)
  | Some 0 => (true, Some 0)
  | Some (S n) => (false, Some n)
  end.

(** * The connection worker: [logging_worker_thread.py] *)

Module Worker.

(** What one [select([self._socket], [], [], self._timeout)] followed by
    [recv] does. *)
Inductive poll : Type :=
| Timeout                (* select returns no readable socket *)
| Readable (k : nat)     (* readable; the kernel hands over at most [S k] bytes *)
| Broken.                (* readable, and [recv] raises [OSError] *)

(** Number of [recv] calls the script certainly serves: the [Readable]
    polls before the first [Broken] one. *)
Fixpoint ready_count (ps : list poll) : nat :=
  match ps with
  | [] => 0
  | Timeout :: ps' => ready_count ps'
  | Readable _ :: ps' => S (ready_count ps')
  | Broken :: _ => 0
  end.

(** The wire protocol: a frame is the big-endian [uint32] length of the
    payload followed by the payload; a connection carries a sequence of
    frames. *)
Definition frame (payload : bytes) : bytes :=
  Struct.pack_L (N.of_nat (length payload)) ++ payload.

Definition stream (payloads : list bytes) : bytes :=
  flat_map frame payloads.

Section WithCollaborators.

(** [pickle.loads] and [logging.makeLogRecord] are library code: both are
    partial ([None] when they raise).  [record_name r] is [r.name] when it
    is a string; [logging.getLogger] raises [TypeError] on any other name.
    [logger_handle name r] tells whether [getLogger(name).handle(r)]
    returns ([true]) or raises. *)
Variables obj LogRecord : Type.
Variable pickle_loads : bytes -> option obj.
Variable makeLogRecord : obj -> option LogRecord.
Variable record_name : LogRecord -> option string.
Variable logger_handle : string -> LogRecord -> bool.

(** Calls the worker makes to its collaborators. *)
Inductive call : Type :=
| Unpack (b : bytes)                       (* struct.unpack('>L', b) *)
| Loads (b : bytes)                        (* pickle.loads(b) *)
| Handle (logger : string) (r : LogRecord) (* getLogger(logger).handle(r) *)
| Shutdown                                 (* socket.shutdown(SHUT_RDWR) *)
| Close.                                   (* socket.close() *)

(** The worker and its connection.  [wire] holds the bytes the peer sends
    before it closes that [recv] has not returned yet; [_force_shutdown]
    is the flag of the same name, written by [force_shutdown] from the
    listener's thread. *)
Record worker : Type := LoggingWorkerThread {
  wire : bytes;
  _force_shutdown : flag;
  trace : list call
}.

Definition set_wire (bs : bytes) (w : worker) : worker :=
  LoggingWorkerThread bs (_force_shutdown w) (trace w).

Definition set_force (f : flag) (w : worker) : worker :=
  LoggingWorkerThread (wire w) f (trace w).

Definition log (c : call) (w : worker) : worker :=
  LoggingWorkerThread (wire w) (_force_shutdown w) (trace w ++ [c]).

(** [socket.shutdown(SHUT_RDWR)] is library code: it returns ([true]) or
    raises [OSError] ([false], as on a socket that is no longer
    connected), depending on the state of the connection. *)
Variable socket_shutdown : worker -> bool.

(** [__init__]: the flag is unset; [f] says when the listener sets it. *)
Definition init (sent : bytes) (f : flag) : worker :=
  LoggingWorkerThread sent f [].

(** [force_shutdown]. *)
Definition force_shutdown (w : worker) : worker := set_force (Some 0) w.

(** One evaluation of [self._force_shutdown]. *)
Definition read_force (w : worker) : bool * worker :=
  let (b, f) := flag_read (_force_shutdown w) in (b, set_force f w).

(** State of a method: the remaining poll script and the worker. *)
Definition M (A : Type) : Type :=
  list poll -> worker -> outcome A * (list poll * worker).

Definition ret {A} (a : A) : M A := fun ps w => (Ret a, (ps, w)).

Definition raise {A} (e : exn) : M A := fun ps w => (Raise e, (ps, w)).

Definition bind {A B} (m : M A) (k : A -> M B) : M B :=
  fun ps w =>
    match m ps w with
    | (Ret a, (ps', w')) => k a ps' w'
    | (Raise e, s) => (Raise e, s)
    | (Wait, s) => (Wait, s)
    end.

Definition lift (f : worker -> worker) : M unit :=
  fun ps w => (Ret tt, (ps, f w)).

Local Notation "x <- m ;; k" := (bind m (fun x => k))
  (at level 61, m at next level, right associativity).
Local Notation "m ;;; k" := (bind m (fun _ => k))
  (at level 61, right associativity).

(** The last two statements of [_recv_chunk]. *)
Definition chunk_result (chunk_size : nat) (chunk : bytes) : bytes :=
  if length chunk =? chunk_size then chunk else [].

(** The [while] loop of [_recv_chunk], entered with [chunk]. *)
Fixpoint recv_loop (chunk_size : nat) (chunk : bytes)
    (ps : list poll) (w : worker) {struct ps}
    : outcome bytes * (list poll * worker) :=
  let (forced, w) := read_force w in
  if forced || negb (length chunk <? chunk_size)
  then (Ret (chunk_result chunk_size chunk), (ps, w))
  else
    match ps with
    | [] => (Wait, ([], w))
    | Timeout :: ps' => recv_loop chunk_size chunk ps' w
    | Readable k :: ps' =>
        let n := Nat.min (S k) (chunk_size - length chunk) in
        let recv_data := firstn n (wire w) in
        let w := set_wire (skipn n (wire w)) w in
        let chunk := chunk ++ recv_data in
        if length recv_data =? 0
        then (Ret (chunk_result chunk_size chunk), (ps', w))
        else recv_loop chunk_size chunk ps' w
    | Broken :: ps' => (Raise OSError, (ps', w))
    end.

Definition _recv_chunk (chunk_size : nat) : M bytes :=
  recv_loop chunk_size [].

(** [_shutdown_socket]: [self._socket.shutdown(SHUT_RDWR)]; the call is
    made, and raises [OSError] when the connection is no longer up. *)
Definition _shutdown_socket : M unit :=
  fun ps w =>
    if socket_shutdown w
    then (Ret tt, (ps, log Shutdown w))
    else (Raise OSError, (ps, log Shutdown w)).

Definition _unPickle (data : bytes) : M obj :=
  lift (log (Loads data)) ;;;
  match pickle_loads data with
  | Some o => ret o
  | None => raise UnpicklingError
  end.

Definition _makeLogRecord (pickled_log : bytes) : M LogRecord :=
  o <- _unPickle pickled_log ;;
  match makeLogRecord o with
  | Some r => ret r
  | None => raise UnpicklingError
  end.

(** [_handleLogRecord]: [logging.getLogger(record.name)], then
    [logger.handle(record)]; either can raise.  [Handle] is recorded for a
    dispatch that was carried out. *)
Definition _handleLogRecord (record : LogRecord) : M unit :=
  match record_name record with
  | None => raise LoggingError
  | Some name =>
      if logger_handle name record
      then lift (log (Handle name record))
      else raise LoggingError
  end.

(** [struct.unpack('>L', logdata_size)[0]]. *)
Definition unpack (logdata_size : bytes) : M N :=
  lift (log (Unpack logdata_size)) ;;;
  match Struct.unpack_L logdata_size with
  | Some n => ret n
  | None => raise StructError
  end.

(** The [while] loop of [run].  An iteration that does not leave the loop
    has consumed at least one poll, so [fuel] above the length of the
    script is never used up. *)
Fixpoint run_loop (fuel : nat) : M unit :=
  match fuel with
  | 0 => fun ps w => (Wait, (ps, w))
  | S fuel =>
      fun ps w =>
        let (forced, w) := read_force w in
        if forced then ret tt ps w
        else
          (logdata_size <- _recv_chunk 4 ;;
           if length logdata_size =? 0 then ret tt
           else
             chunk_size <- unpack logdata_size ;;
             pickled_log <- _recv_chunk (N.to_nat chunk_size) ;;
             if length pickled_log =? 0 then ret tt
             else
               record <- _makeLogRecord pickled_log ;;
               _handleLogRecord record ;;;
               run_loop fuel) ps w
  end.

(** [with self._socket: body]: [socket.__exit__] closes the socket when
    the body returns and when it raises. *)
Definition with_socket (body : M unit) : M unit :=
  fun ps w =>
    match body ps w with
    | (Ret tt, (ps', w')) => (Ret tt, (ps', log Close w'))
    | (Raise e, (ps', w')) => (Raise e, (ps', log Close w'))
    | (Wait, s) => (Wait, s)
    end.

(** [run]. *)
Definition run : M unit :=
  fun ps w =>
    with_socket (run_loop (S (length ps)) ;;; _shutdown_socket) ps w.

(** [_makeLogRecord] as a function of the payload alone. *)
Definition deserialize (payload : bytes) : option LogRecord :=
  match pickle_loads payload with
  | Some o => makeLogRecord o
  | None => None
  end.

(** The logger that handles [r]: [None] when [_handleLogRecord] raises. *)
Definition dispatch (r : LogRecord) : option string :=
  match record_name r with
  | Some name => if logger_handle name r then Some name else None
  | None => None
  end.

(** The calls one run of the [while] loop of [run] can make, in order: per
    frame the length prefix is unpacked, then the complete payload is
    unpickled, then the record is handled.  The loop can stop after an
    unpack (payload not obtained), after a failed deserialization, or
    after a deserialization whose record the logger does not take. *)
Inductive loop_trace : list call -> Prop :=
| loop_done : loop_trace []
| loop_prefix (h : bytes) :
    length h = 4 -> loop_trace [Unpack h]
| loop_failed (h p : bytes) :
    option_map N.to_nat (Struct.unpack_L h) = Some (length p) ->
    p <> [] -> deserialize p = None ->
    loop_trace [Unpack h; Loads p]
| loop_rejected (h p : bytes) (r : LogRecord) :
    option_map N.to_nat (Struct.unpack_L h) = Some (length p) ->
    p <> [] -> deserialize p = Some r -> dispatch r = None ->
    loop_trace [Unpack h; Loads p]
| loop_record (h p : bytes) (r : LogRecord) (name : string)
    (t : list call) :
    option_map N.to_nat (Struct.unpack_L h) = Some (length p) ->
    p <> [] -> deserialize p = Some r -> dispatch r = Some name ->
    loop_trace t ->
    loop_trace (Unpack h :: Loads p :: Handle name r :: t).

(** The calls made for a frame whose payload [p] deserializes to [r], and
    for a sequence of such frames. *)
Definition frame_calls (p : bytes) (r : LogRecord) : list call :=
  [Unpack (Struct.pack_L (N.of_nat (length p))); Loads p]
  ++ match dispatch r with
     | Some name => [Handle name r]
     | None => []
     end.

Fixpoint stream_calls (payloads : list bytes) (records : list LogRecord)
    : list call :=
  match payloads, records with
  | p :: payloads', r :: records' =>
      frame_calls p r ++ stream_calls payloads' records'
  | _, _ => []
  end.

(** What [_recv_chunk] accumulated is a prefix of the wire; it is returned
    when it has the requested length and dropped otherwise. *)
Definition recv_post (n : nat) (chunk : bytes) (ps : list poll) (w : worker)
    (res : outcome bytes * (list poll * worker)) : Prop :=
  let '(r, (ps', w')) := res in
  trace w' = trace w /\ length ps' <= length ps /\
  exists got,
    wire w = got ++ wire w' /\ length (chunk ++ got) <= n /\
    match r with
    | Ret bs =>
        ((bs = chunk ++ got /\ length bs = n)
         \/ (bs = [] /\ length (chunk ++ got) < n))
        /\ (length chunk < n -> bs <> [] -> length ps' < length ps)
    | Raise e => e = OSError
    | Wait => ps' = []
    end.

(** What the loop of [run] leaves behind: it consumed a prefix of the wire
    and of the script, its calls form a [loop_trace], it never fails in
    [struct.unpack], and it waits only at the end of the script. *)
Definition run_post (ps : list poll) (w : worker)
    (res : outcome unit * (list poll * worker)) : Prop :=
  let '(r, (ps', w')) := res in
  length ps' <= length ps /\
  (exists got, wire w = got ++ wire w') /\
  (exists t, trace w' = trace w ++ t /\ loop_trace t) /\
  match r with
  | Ret _ => True
  | Raise e => e <> StructError
  | Wait => ps' = []
  end.

(** Projections of a trace. *)
Definition loads_of (t : list call) : list bytes :=
  flat_map (fun c => match c with Loads b => [b] | _ => [] end) t.

Definition unpacks_of (t : list call) : list bytes :=
  flat_map (fun c => match c with Unpack b => [b] | _ => [] end) t.

Definition handled_of (t : list call) : list LogRecord :=
  flat_map (fun c => match c with Handle _ r => [r] | _ => [] end) t.

Definition socket_calls_of (t : list call) : list call :=
  filter (fun c => match c with Shutdown | Close => true | _ => false end) t.

End WithCollaborators.

Arguments Unpack {LogRecord} b.
Arguments Loads {LogRecord} b.
Arguments Shutdown {LogRecord}.
Arguments Close {LogRecord}.
Arguments init {LogRecord} sent f.

End Worker.

(** * The listener: [logging_server.py] *)

Module Server.

(** What one [select([serversocket], [], [], self._timeout)] followed by
    [accept] and [wk.start()] does. *)
Inductive poll : Type :=
| Timeout                           (* no pending connection *)
| Incoming (lifetime : option nat)  (* a connection is accepted *)
| Failed                            (* [select] or [accept] raises [OSError] *)
| StartFails.                       (* accepted, and [wk.start()] raises *)

(** What happens before the accept loop: [logging.config.dictConfig],
    [socket(AF_INET, SOCK_STREAM)], then, inside the [with] block, [bind]
    and [listen].  Each of them is library code that can raise. *)
Inductive startup : Type :=
| Up             (* all four return *)
| ConfigFails    (* dictConfig raises *)
| SocketFails    (* socket() raises OSError *)
| BindFails.     (* bind or listen raises OSError, as on a port in use *)

(** The listener's view of a [LoggingWorkerThread].  [lifetime] is the
    number of calls of [is_alive] that still answer [True], [None] when the
    thread never ends by itself (its peer neither closes nor sends a frame
    that ends the loop); [forced] records a call of [force_shutdown]. *)
Record thread : Type := Thread {
  tid : nat;
  lifetime : option nat;
  forced : bool
}.

(** What the listener does to its workers and to its socket. *)
Inductive action : Type :=
| Started (t : nat)    (* accept(), LoggingWorkerThread(...), wk.start() *)
| Reaped (t : nat)     (* wk.is_alive() answered False: dropped from the list *)
| Forced (t : nat)     (* wk.force_shutdown() *)
| Joined (t : nat)     (* wk.join() returned *)
| Closed.              (* serversocket.close() *)

(** The process: the graceful-shutdown event, the local list [workers],
    the number of threads started so far and the trace. *)
Record server : Type := LoggingServer {
  _shutdown_event : flag;
  workers : list thread;
  started : nat;
  trace : list action
}.

(** [__init__]: no worker yet; [f] says when [shutdown] sets the event. *)
Definition init (f : flag) : server := LoggingServer f [] 0 [].

(** [shutdown]: sets [_shutdown_event].  The second event,
    [_force_shutdown_event], is read only through [wait]: its script is the
    list of the answers of the successive [wait(self._timeout)]. *)
Definition shutdown (s : server) : server :=
  LoggingServer (Some 0) (workers s) (started s) (trace s).

Definition set_workers (wks : list thread) (s : server) : server :=
  LoggingServer (_shutdown_event s) wks (started s) (trace s).

Definition log (a : list action) (s : server) : server :=
  LoggingServer (_shutdown_event s) (workers s) (started s) (trace s ++ a).

(** [self._shutdown_event.is_set()]. *)
Definition is_set (s : server) : bool * server :=
  let (b, f) := flag_read (_shutdown_event s) in
  (b, LoggingServer f (workers s) (started s) (trace s)).

(** [accept], construct the worker, [start] it, append it to [workers]. *)
Definition spawn (l : option nat) (s : server) : server :=
  LoggingServer (_shutdown_event s)
    (workers s ++ [Thread (started s) l false])
    (S (started s))
    (trace s ++ [Started (started s)]).

(** [wk.join(0)] returns at once and changes nothing. *)
Definition join0 (t : thread) : thread := t.

(** [wk.is_alive()]. *)
Definition is_alive (t : thread) : bool * thread :=
  match lifetime t with
  | None => (true, t)
  | Some 0 => (false, t)
  | Some (S n) => (true, Thread (tid t) (Some n) (forced t))
  end.

(** [[wk for wk in workers if wk.is_alive()]], with the threads found
    dead. *)
Fixpoint collect_alive (wks : list thread) : list thread * list action :=
  match wks with
  | [] => ([], [])
  | t :: wks' =>
      let (alive, t') := is_alive t in
      let (keep, dead) := collect_alive wks' in
      if alive then (t' :: keep, dead) else (keep, Reaped (tid t) :: dead)
  end.

(** The two statements that end an iteration of both loops. *)
Definition reap (s : server) : server :=
  let (keep, dead) := collect_alive (map join0 (workers s)) in
  log dead (set_workers keep s).

(** The accept loop ([RUNNING]). *)
Fixpoint accept_loop (ps : list poll) (s : server) {struct ps}
    : outcome unit * (list poll * server) :=
  let (stop, s) := is_set s in
  if stop then (Ret tt, (ps, s))
  else
    match ps with
    | [] => (Wait, ([], s))
    | Timeout :: ps' => accept_loop ps' (reap s)
    | Incoming l :: ps' => accept_loop ps' (reap (spawn l s))
    | Failed :: ps' => (Raise OSError, (ps', s))
    | StartFails :: ps' => (Raise RuntimeError, (ps', s))
    end.

(** [for wk in workers: wk.force_shutdown()]. *)
Definition force_shutdown (t : thread) : thread :=
  Thread (tid t) (lifetime t) true.

Definition force_all (s : server) : server :=
  log (map (fun t => Forced (tid t)) (workers s))
      (set_workers (map force_shutdown (workers s)) s).

(** The drain loop ([DRAINING]); [ws] holds the answers of the successive
    [self._force_shutdown_event.wait(self._timeout)]. *)
Fixpoint drain_loop (ws : list bool) (s : server) {struct ws}
    : outcome unit * (list bool * server) :=
  match workers s with
  | [] => (Ret tt, (ws, s))
  | _ :: _ =>
      match ws with
      | [] => (Wait, ([], s))
      | true :: ws' => (Ret tt, (ws', force_all s))
      | false :: ws' => drain_loop ws' (reap s)
      end
  end.

(** A blocking [wk.join()] returns when the thread ends: a thread told to
    stop does, and so does one with a finite lifetime. *)
Definition terminates (t : thread) : bool :=
  forced t || match lifetime t with Some _ => true | None => false end.

(** [for wk in workers: wk.join()]. *)
Fixpoint join_all (wks : list thread) (s : server)
    : outcome unit * server :=
  match wks with
  | [] => (Ret tt, s)
  | t :: wks' =>
      if terminates t then join_all wks' (log [Joined (tid t)] s)
      else (Wait, s)
  end.

(** The three loops in sequence, inside [with serversocket:]. *)
Definition body (ps : list poll) (ws : list bool) (s : server)
    : outcome unit * server :=
  match accept_loop ps s with
  | (Ret tt, (_, s1)) =>
      match drain_loop ws s1 with
      | (Ret tt, (_, s2)) => join_all (workers s2) s2
      | (Raise e, (_, s2)) => (Raise e, s2)
      | (Wait, (_, s2)) => (Wait, s2)
      end
  | (Raise e, (_, s1)) => (Raise e, s1)
  | (Wait, (_, s1)) => (Wait, s1)
  end.

(** The [with serversocket:] block once the socket listens: the listening
    socket is closed when the body returns and when it raises. *)
Definition serve (ps : list poll) (ws : list bool) (s : server)
    : outcome unit * server :=
  match body ps ws s with
  | (Ret tt, s') => (Ret tt, log [Closed] s')
  | (Raise e, s') => (Raise e, log [Closed] s')
  | (Wait, s') => (Wait, s')
  end.

(** [run].  [dictConfig] and [socket()] come before the [with] block, so
    an error there closes nothing; [bind] and [listen] are inside it. *)
Definition run (st : startup) (ps : list poll) (ws : list bool)
    (s : server) : outcome unit * server :=
  match st with
  | ConfigFails => (Raise ConfigError, s)
  | SocketFails => (Raise OSError, s)
  | BindFails => (Raise OSError, log [Closed] s)
  | Up => serve ps ws s
  end.

(** Threads started, by identifier. *)
Definition started_of (t : list action) : list nat :=
  flat_map (fun a => match a with Started i => [i] | _ => [] end) t.

(** Threads known to have ended: reaped or joined. *)
Definition ended_of (t : list action) : list nat :=
  flat_map (fun a => match a with Reaped i | Joined i => [i] | _ => [] end) t.

Definition forced_of (t : list action) : list nat :=
  flat_map (fun a => match a with Forced i => [i] | _ => [] end) t.

Definition joined_of (t : list action) : list nat :=
  flat_map (fun a => match a with Joined i => [i] | _ => [] end) t.

(** Every thread started so far is still in [workers] or is known to have
    ended. *)
Definition accounted (s : server) : Prop :=
  forall i : nat,
    In i (started_of (trace s)) ->
    In i (map tid (workers s)) \/ In i (ended_of (trace s)).

End Server.

(** * Concrete collaborators, used to run the model *)

Module Sample.

(** A stand-in for [pickle.loads]: a payload is accepted when it starts
    with the protocol opcode [0x80]. *)
Definition loads (b : bytes) : option bytes :=
  match b with
  | x80 :: _ => Some b
  | _ => None
  end.

Definition make (o : bytes) : option bytes := Some o.

(** A stand-in for [record.name]: a record whose second byte is zero has a
    [name] that is not a string, which [logging.getLogger] refuses; the
    other records are for the root logger. *)
Definition name (r : bytes) : option string :=
  match r with
  | _ :: x00 :: _ => None
  | _ => Some "root"%string
  end.

(** The logger takes every record. *)
Definition handle (logger : string) (r : bytes) : bool := true.

(** [socket.shutdown] on a connection that is still up, and on one that
    was reset. *)
Definition connected (w : Worker.worker bytes) : bool := true.

Definition reset (w : Worker.worker bytes) : bool := false.

Definition run := Worker.run loads make name handle connected.

Definition run_reset := Worker.run loads make name handle reset.

Definition good1 : bytes := [x80; x01].
Definition good2 : bytes := [x80; x02; x03].
Definition bad : bytes := [x01].
Definition nameless : bytes := [x80; x00].

(** Polls that hand over everything that is pending. *)
Definition eager (n : nat) : list Worker.poll := repeat (Worker.Readable 99) n.

(** A listener script: a client that never closes connects, then [accept]
    fails. *)
Definition accept_fails : list Server.poll :=
  [Server.Incoming None; Server.Failed].

(** A listener script: two clients connect, the first closes after two
    rounds, the second after three. *)
Definition two_clients : list Server.poll :=
  [Server.Incoming (Some 2); Server.Incoming (Some 3); Server.Timeout;
   Server.Incoming (Some 1)].

(** A malformed payload followed by a well-formed frame. *)
Definition bad_then_good : bytes := Worker.frame bad ++ Worker.frame good1.

(** A frame with an empty payload followed by a well-formed frame. *)
Definition empty_then_good : bytes := Worker.frame [] ++ Worker.frame good1.

(** A well-formed frame, then a prefix announcing five bytes followed by
    two bytes only. *)
Definition good_then_truncated : bytes :=
  Worker.frame good1 ++ Struct.pack_L 5 ++ [x80; x01].

(** Polls that hand over one byte at a time, with a timeout in between. *)
Fixpoint slow (n : nat) : list Worker.poll :=
  match n with
  | 0 => []
  | S n' => Worker.Readable 0 :: Worker.Timeout :: slow n'
  end.

(** Two workers of the listener whose clients close within two rounds. *)
Definition closing_workers : list Server.thread :=
  [Server.Thread 0 (Some 2) false; Server.Thread 1 (Some 0) false].

End Sample.

(** * The sample program: [sample_server.py] *)

Module Main.

(** Calls of the program on its [LoggingServer]. *)
Inductive call : Type :=
| Start                          (* server.start() *)
| Shutdown (force : bool)        (* server.shutdown(force=...) *)
| Join (timeout : option nat).   (* server.join(timeout) *)

(** How the program ends: normally, with the [EOFError] that [input] raises
    at the end of the standard input, or still polling [is_alive] at the
    end of the script. *)
Inductive ending : Type :=
| Returned
| EOFError
| Polling.

(** [cmd in ['stop', 'force']]. *)
Definition recognised (cmd : string) : bool :=
  existsb (String.eqb cmd) ["stop"%string; "force"%string].

(** The [while True] loop around [input]: the lines typed are read until
    one is a command; [None] when the input ends first. *)
Fixpoint read_command (inputs : list string) : option string :=
  match inputs with
  | [] => None
  | cmd :: rest => if recognised cmd then Some cmd else read_command rest
  end.

(** [while server.is_alive(): server.join(10)], on the successive answers
    of [is_alive]. *)
Fixpoint wait_server (alive : list bool) : ending * list call :=
  match alive with
  | [] => (Polling, [])
  | false :: _ => (Returned, [])
  | true :: alive' =>
      let (e, calls) := wait_server alive' in (e, Join (Some 10) :: calls)
  end.

(** The [try ... finally] block of the program. *)
Definition main (inputs : list string) (alive : list bool)
    : ending * list call :=
  match read_command inputs with
  | None => (EOFError, [Start; Join None])
  | Some cmd =>
      match wait_server alive with
      | (Returned, calls) =>
          (Returned,
           Start :: Shutdown (String.eqb cmd "force") :: calls ++ [Join None])
      | (e, calls) =>
          (e, Start :: Shutdown (String.eqb cmd "force") :: calls)
      end
  end.

End Main.

Unset Implicit Arguments.

(** * Facts about the frame codec *)

Lemma to_N_byte_of_N (n : N) : Byte.to_N (Struct.byte_of_N n) = (n mod 256)%N.
Proof.
  unfold Struct.byte_of_N.
  destruct (Byte.of_N (n mod 256)) as [b|] eqn:E.
  - now apply Byte.to_of_N.
  - apply Byte.of_N_None_iff in E.
    pose proof (N.mod_lt n 256). lia.
Qed.

Lemma unpack_pack_L (n : N) :
  (n < 4294967296)%N -> Struct.unpack_L (Struct.pack_L n) = Some n.
Proof.
  intros Hn. unfold Struct.pack_L, Struct.unpack_L.
  rewrite !to_N_byte_of_N. f_equal.
  replace (n / 65536)%N with (n / 256 / 256)%N
    by (rewrite N.Div0.div_div; reflexivity).
  replace (n / 16777216)%N with (n / 256 / 256 / 256)%N
    by (rewrite !N.Div0.div_div; reflexivity).
  pose proof (N.Div0.div_mod n 256).
  pose proof (N.Div0.div_mod (n / 256) 256).
  pose proof (N.Div0.div_mod (n / 256 / 256) 256).
  assert (n / 256 / 256 / 256 < 256)%N.
  { rewrite !N.Div0.div_div. apply N.Div0.div_lt_upper_bound. simpl. lia. }
  rewrite (N.mod_small (n / 256 / 256 / 256) 256) by assumption.
  lia.
Qed.

Lemma length_pack_L (n : N) : length (Struct.pack_L n) = 4.
Proof. reflexivity. Qed.

Lemma unpack_L_length (b : bytes) :
  length b = 4 -> exists n, Struct.unpack_L b = Some n /\ (n < 4294967296)%N.
Proof.
  destruct b as [|b3 [|b2 [|b1 [|b0 [|? ?]]]]]; try discriminate.
  intros _. eexists. split; [reflexivity|].
  pose proof (Byte.to_N_bounded b3). pose proof (Byte.to_N_bounded b2).
  pose proof (Byte.to_N_bounded b1). pose proof (Byte.to_N_bounded b0). lia.
Qed.

Lemma unpack_L_Some (b : bytes) (n : N) :
  Struct.unpack_L b = Some n -> length b = 4.
Proof.
  destruct b as [|b3 [|b2 [|b1 [|b0 [|? ?]]]]]; try discriminate. reflexivity.
Qed.

Lemma byte_of_N_to_N (x : N) (b : byte) :
  (x mod 256 = Byte.to_N b)%N -> Struct.byte_of_N x = b.
Proof.
  intros H. unfold Struct.byte_of_N. rewrite H, Byte.of_to_N. reflexivity.
Qed.

(** X1.  Decoding inverts encoding: a length below [2^32] packed as four
    big-endian bytes is unpacked to the same length. *)
Theorem X1_unpack_pack_roundtrip (n : N) :
  (n < 4294967296)%N ->
  length (Struct.pack_L n) = 4 /\
  Struct.unpack_L (Struct.pack_L n) = Some n.
Proof.
  intros Hn. split; [reflexivity|]. apply unpack_pack_L. assumption.
Qed.

Lemma pack_unpack_L (b : bytes) (n : N) :
  Struct.unpack_L b = Some n ->
  length b = 4 /\ (n < 4294967296)%N /\ Struct.pack_L n = b.
Proof.
  destruct b as [|b3 [|b2 [|b1 [|b0 [|? ?]]]]]; try discriminate.
  simpl. intros H. injection H as H.
  pose proof (Byte.to_N_bounded b3). pose proof (Byte.to_N_bounded b2).
  pose proof (Byte.to_N_bounded b1). pose proof (Byte.to_N_bounded b0).
  split; [reflexivity|]. split; [lia|].
  set (a3 := Byte.to_N b3) in *. set (a2 := Byte.to_N b2) in *.
  set (a1 := Byte.to_N b1) in *. set (a0 := Byte.to_N b0) in *.
  assert (Q3 : (n / 16777216 = a3)%N).
  { symmetry. apply (N.div_unique n 16777216 a3 (65536 * a2 + 256 * a1 + a0));
      lia. }
  assert (Q2 : (n / 65536 = 256 * a3 + a2)%N).
  { symmetry. apply (N.div_unique n 65536 _ (256 * a1 + a0)); lia. }
  assert (Q1 : (n / 256 = 256 * (256 * a3 + a2) + a1)%N).
  { symmetry. apply (N.div_unique n 256 _ a0); lia. }
  unfold Struct.pack_L. rewrite Q3, Q2, Q1.
  repeat f_equal; apply byte_of_N_to_N; symmetry.
  - apply (N.mod_unique _ 256 0); fold a3; lia.
  - apply (N.mod_unique _ 256 a3); fold a2; lia.
  - apply (N.mod_unique _ 256 (256 * a3 + a2)); fold a1; lia.
  - apply (N.mod_unique _ 256 (256 * (256 * a3 + a2) + a1)); fold a0; lia.
Qed.

(** X2.  Encoding inverts decoding: when [struct.unpack] accepts a byte
    string, the string has four bytes, the length it yields is below
    [2^32], and packing that length gives the string back.  So two
    different prefixes never announce the same length. *)
Theorem X2_pack_unpack_roundtrip (b : bytes) (n : N) :
  Struct.unpack_L b = Some n ->
  length b = 4 /\ (n < 4294967296)%N /\ Struct.pack_L n = b.
Proof. apply pack_unpack_L. Qed.

(** * Facts about the connection worker *)

Section WorkerFacts.

Variables obj LogRecord : Type.
Variable pickle_loads : bytes -> option obj.
Variable makeLogRecord : obj -> option LogRecord.
Variable record_name : LogRecord -> option string.
Variable logger_handle : string -> LogRecord -> bool.

Import Worker.

Local Abbreviation worker := (Worker.worker LogRecord).

Variable socket_shutdown : worker -> bool.

Local Abbreviation run_loop :=
  (Worker.run_loop pickle_loads makeLogRecord record_name logger_handle).
Local Abbreviation run :=
  (Worker.run pickle_loads makeLogRecord record_name logger_handle
     socket_shutdown).
Local Abbreviation deserialize := (Worker.deserialize pickle_loads makeLogRecord).
Local Abbreviation dispatch := (Worker.dispatch record_name logger_handle).
Local Abbreviation loop_trace :=
  (Worker.loop_trace pickle_loads makeLogRecord record_name logger_handle).
Local Abbreviation stream_calls :=
  (Worker.stream_calls record_name logger_handle).
Local Abbreviation run_post :=
  (Worker.run_post pickle_loads makeLogRecord record_name logger_handle).

Lemma read_force_frame (w : worker) :
  wire (snd (read_force w)) = wire w /\ trace (snd (read_force w)) = trace w.
Proof.
  unfold read_force. destruct (flag_read (_force_shutdown w)); simpl. auto.
Qed.

Lemma read_force_None (w : worker) :
  _force_shutdown w = None -> read_force w = (false, w).
Proof.
  destruct w as [wi f t]; simpl. intros ->. reflexivity.
Qed.

Lemma read_force_set (w : worker) :
  _force_shutdown w = Some 0 -> read_force w = (true, w).
Proof.
  destruct w as [wi f t]; simpl. intros ->. reflexivity.
Qed.

Lemma chunk_result_cases (n : nat) (chunk : bytes) :
  (length chunk = n /\ chunk_result n chunk = chunk)
  \/ (length chunk <> n /\ chunk_result n chunk = []).
Proof.
  unfold chunk_result. destruct (Nat.eqb_spec (length chunk) n); auto.
Qed.

Lemma recv_loop_unfold (n : nat) (chunk : bytes) (ps : list poll) (w : worker) :
  recv_loop n chunk ps w =
  let (forced, w) := read_force w in
  if forced || negb (length chunk <? n)
  then (Ret (chunk_result n chunk), (ps, w))
  else
    match ps with
    | [] => (Wait, ([], w))
    | Timeout :: ps' => recv_loop n chunk ps' w
    | Readable k :: ps' =>
        let m := Nat.min (S k) (n - length chunk) in
        let recv_data := firstn m (wire w) in
        let w := set_wire (skipn m (wire w)) w in
        let chunk := chunk ++ recv_data in
        if length recv_data =? 0
        then (Ret (chunk_result n chunk), (ps', w))
        else recv_loop n chunk ps' w
    | Broken :: ps' => (Raise OSError, (ps', w))
    end.
Proof. destruct ps; reflexivity. Qed.

Lemma recv_post_stop (n : nat) (chunk : bytes) (ps : list poll) (w w1 : worker) :
  wire w1 = wire w -> trace w1 = trace w -> length chunk <= n ->
  recv_post n chunk ps w (Ret (chunk_result n chunk), (ps, w1)).
Proof.
  intros Hw Ht Hle. unfold recv_post.
  split; [assumption|]. split; [lia|].
  exists []. rewrite app_nil_r. split; [simpl; congruence|].
  split; [assumption|].
  destruct (chunk_result_cases n chunk) as [[H1 H2]|[H1 H2]]; rewrite H2.
  - split; [left; auto | intros; lia].
  - split; [right; split; auto; lia | intros; congruence].
Qed.

Lemma recv_loop_post (ps : list poll) :
  forall (n : nat) (chunk : bytes) (w : worker),
    length chunk <= n -> recv_post n chunk ps w (recv_loop n chunk ps w).
Proof.
  induction ps as [|p ps IH]; intros n chunk w Hle;
    rewrite recv_loop_unfold;
    destruct (read_force w) as [forced w1] eqn:E;
    pose proof (read_force_frame w) as [Hw Ht]; rewrite E in Hw, Ht;
    simpl in Hw, Ht;
    (destruct (forced || negb (length chunk <? n)) eqn:C;
     [now apply recv_post_stop|]);
    apply orb_false_iff in C; destruct C as [_ C];
    apply negb_false_iff, Nat.ltb_lt in C.
  - unfold recv_post. split; [assumption|]. split; [lia|].
    exists []. rewrite app_nil_r. repeat split; auto.
  - destruct p as [|k|].
    + specialize (IH n chunk w1 Hle). unfold recv_post in *.
      destruct (recv_loop n chunk ps w1) as [r [ps' w']].
      destruct IH as (T & L & got & G1 & G2 & G3).
      split; [congruence|]. split; [simpl; lia|].
      exists got. split; [congruence|]. split; [assumption|].
      destruct r as [bs|e|]; [|assumption|assumption].
      destruct G3 as [G3 G4]. split; auto. intros. simpl. lia.
    + cbv zeta.
      set (m := Nat.min (S k) (n - length chunk)).
      set (recv_data := firstn m (wire w1)).
      set (w2 := set_wire (skipn m (wire w1)) w1).
      assert (Hsplit : wire w = recv_data ++ wire w2).
      { rewrite <- Hw. unfold recv_data, w2. simpl. symmetry. apply firstn_skipn. }
      assert (Hlen : length (chunk ++ recv_data) <= n).
      { rewrite length_app. unfold recv_data.
        pose proof (firstn_le_length m (wire w1)). lia. }
      destruct (Nat.eqb_spec (length recv_data) 0) as [Z|NZ].
      * unfold recv_post.
        split; [unfold w2; simpl; congruence|]. split; [simpl; lia|].
        exists recv_data. split; [assumption|]. split; [assumption|].
        destruct recv_data; [|discriminate]. rewrite app_nil_r in *.
        destruct (chunk_result_cases n chunk) as [[H1 H2]|[H1 H2]]; [lia|].
        rewrite H2. split; [right; split; auto | intros; congruence].
      * specialize (IH n (chunk ++ recv_data) w2 Hlen). unfold recv_post in *.
        destruct (recv_loop n (chunk ++ recv_data) ps w2) as [r [ps' w']].
        destruct IH as (T & L & got & G1 & G2 & G3).
        split; [unfold w2 in T; simpl in T; congruence|]. split; [simpl; lia|].
        exists (recv_data ++ got). rewrite <- app_assoc in *.
        split; [rewrite Hsplit, G1; reflexivity|]. split; [assumption|].
        destruct r as [bs|e|]; [|assumption|assumption].
        destruct G3 as [G3 G4]. split; auto. intros. simpl. lia.
    + unfold recv_post. split; [assumption|]. split; [simpl; lia|].
      exists []. rewrite app_nil_r. repeat split; auto.
Qed.

Lemma run_loop_unfold (f : nat) (ps : list poll) (w : worker) :
  run_loop (S f) ps w =
  let (forced, w0) := read_force w in
  if forced then (Ret tt, (ps, w0))
  else
    match recv_loop 4 [] ps w0 with
    | (Ret logdata_size, (ps1, w1)) =>
        if length logdata_size =? 0 then (Ret tt, (ps1, w1))
        else
          match Struct.unpack_L logdata_size with
          | None => (Raise StructError, (ps1, log (Unpack logdata_size) w1))
          | Some chunk_size =>
              match recv_loop (N.to_nat chunk_size) [] ps1
                      (log (Unpack logdata_size) w1) with
              | (Ret pickled_log, (ps2, w2)) =>
                  if length pickled_log =? 0 then (Ret tt, (ps2, w2))
                  else
                    match deserialize pickled_log with
                    | None =>
                        (Raise UnpicklingError,
                         (ps2, log (Loads pickled_log) w2))
                    | Some r =>
                        match dispatch r with
                        | None =>
                            (Raise LoggingError,
                             (ps2, log (Loads pickled_log) w2))
                        | Some name =>
                            run_loop f ps2
                              (log (Handle name r)
                                 (log (Loads pickled_log) w2))
                        end
                    end
              | (Raise e, s) => (Raise e, s)
              | (Wait, s) => (Wait, s)
              end
          end
    | (Raise e, s) => (Raise e, s)
    | (Wait, s) => (Wait, s)
    end.
Proof.
  cbn [Worker.run_loop]. destruct (read_force w) as [forced w0].
  destruct forced; [reflexivity|].
  cbv [bind _recv_chunk unpack _makeLogRecord _unPickle
    _handleLogRecord lift ret raise Worker.deserialize Worker.dispatch].
  destruct (recv_loop 4 [] ps w0) as [[b| |] [ps1 w1]]; try reflexivity.
  destruct (length b =? 0); [reflexivity|].
  destruct (Struct.unpack_L b) as [n|]; [|reflexivity].
  destruct (recv_loop (N.to_nat n) [] ps1 (log (Unpack b) w1))
    as [[p| |] [ps2 w2]]; try reflexivity.
  destruct (length p =? 0); [reflexivity|].
  destruct (pickle_loads p) as [o|]; [|reflexivity].
  destruct (makeLogRecord o) as [r|]; [|reflexivity].
  destruct (record_name r) as [name|]; [|reflexivity].
  destruct (logger_handle name r); reflexivity.
Qed.

Lemma run_loop_inv (fuel : nat) :
  forall (ps : list poll) (w : worker),
    length ps < fuel -> run_post ps w (run_loop fuel ps w).
Proof.
  induction fuel as [|f IH]; intros ps w Hf; [lia|].
  rewrite run_loop_unfold.
  destruct (read_force w) as [forced w0] eqn:E.
  pose proof (read_force_frame w) as [Hw Ht]. rewrite E in Hw, Ht.
  simpl in Hw, Ht.
  destruct forced.
  { unfold run_post. split; [lia|]. split; [exists []; simpl; congruence|].
    split; [|exact I]. exists []. rewrite app_nil_r. split; [assumption|].
    constructor. }
  pose proof (recv_loop_post ps 4 [] w0 (Nat.le_0_l 4)) as P1.
  unfold recv_post in P1.
  destruct (recv_loop 4 [] ps w0) as [r1 [ps1 w1]].
  destruct P1 as (T1 & L1 & got1 & G1 & _ & R1).
  assert (Hnil : loop_trace []) by constructor.
  destruct r1 as [b|e|].
  2:{ unfold run_post. split; [assumption|].
      split; [exists got1; congruence|].
      split; [exists []; rewrite app_nil_r; split; [congruence|assumption]|].
      subst e. discriminate. }
  2:{ unfold run_post. split; [assumption|].
      split; [exists got1; congruence|].
      split; [exists []; rewrite app_nil_r; split; [congruence|assumption]|].
      assumption. }
  destruct R1 as [R1 S1].
  destruct (Nat.eqb_spec (length b) 0) as [Z|NZ].
  { unfold run_post. split; [assumption|].
    split; [exists got1; congruence|].
    split; [exists []; rewrite app_nil_r; split; [congruence|assumption]|].
    exact I. }
  assert (Hb : length b = 4).
  { destruct R1 as [[_ ?]|[-> _]]; [assumption|]. simpl in NZ. lia. }
  assert (Hps1 : length ps1 < length ps).
  { apply S1; [simpl; lia|]. intros ->. simpl in NZ. lia. }
  destruct (unpack_L_length b Hb) as (n & Hn & _). rewrite Hn.
  pose proof (recv_loop_post ps1 (N.to_nat n) [] (log (Unpack b) w1)
                (Nat.le_0_l _)) as P2.
  unfold recv_post in P2.
  destruct (recv_loop (N.to_nat n) [] ps1 (log (Unpack b) w1))
    as [r2 [ps2 w2]].
  destruct P2 as (T2 & L2 & got2 & G2 & _ & R2).
  simpl in T2, G2.
  assert (Hwire : wire w = (got1 ++ got2) ++ wire w2).
  { rewrite <- app_assoc, <- G2, <- G1. congruence. }
  assert (Htr : trace w2 = trace w ++ [Unpack b]) by congruence.
  assert (Hpre : loop_trace [Unpack b]) by (constructor; assumption).
  destruct r2 as [pl|e|].
  2:{ unfold run_post. split; [lia|]. split; [eexists; eassumption|].
      split; [eexists; split; eassumption|]. subst e. discriminate. }
  2:{ unfold run_post. split; [lia|]. split; [eexists; eassumption|].
      split; [eexists; split; eassumption|]. assumption. }
  destruct R2 as [R2 _].
  destruct (Nat.eqb_spec (length pl) 0) as [Z2|NZ2].
  { unfold run_post. split; [lia|]. split; [eexists; eassumption|].
    split; [eexists; split; eassumption|]. exact I. }
  assert (Hpl : length pl = N.to_nat n).
  { destruct R2 as [[_ ?]|[-> _]]; [assumption|]. simpl in NZ2. lia. }
  assert (Hne : pl <> []) by (intros ->; simpl in NZ2; lia).
  assert (Hhdr : option_map N.to_nat (Struct.unpack_L b) = Some (length pl)).
  { rewrite Hn. simpl. congruence. }
  destruct (deserialize pl) as [r|] eqn:D.
  - destruct (dispatch r) as [name|] eqn:Dp.
    + specialize (IH ps2 (log (Handle name r) (log (Loads pl) w2))).
      unfold run_post in *.
      destruct (run_loop f ps2 (log (Handle name r) (log (Loads pl) w2)))
        as [r3 [ps3 w3]].
      destruct IH as (L3 & (got3 & G3) & (t & T3 & LT) & R3); [lia|].
      simpl in G3, T3.
      split; [lia|].
      split; [exists ((got1 ++ got2) ++ got3); rewrite <- app_assoc, <- G3;
              assumption|].
      split; [|assumption].
      exists (Unpack b :: Loads pl :: Handle name r :: t).
      split; [|now apply loop_record].
      rewrite T3, Htr, <- !app_assoc. reflexivity.
    + unfold run_post. split; [lia|]. split; [eexists; eassumption|].
      split; [|discriminate].
      exists [Unpack b; Loads pl].
      split; [|now apply loop_rejected with (r := r)].
      simpl. rewrite Htr, <- app_assoc. reflexivity.
  - unfold run_post. split; [lia|]. split; [eexists; eassumption|].
    split; [|discriminate].
    exists [Unpack b; Loads pl]. split; [|now apply loop_failed].
    simpl. rewrite Htr, <- app_assoc. reflexivity.
Qed.

(** Consequences of the shape of the loop's trace. *)

Lemma loop_trace_sockets (t : list (call LogRecord)) :
  loop_trace t -> socket_calls_of t = [].
Proof. induction 1; simpl; auto. Qed.

Lemma header_length (h p : bytes) :
  option_map N.to_nat (Struct.unpack_L h) = Some (length p) -> length h = 4.
Proof.
  destruct h as [|? [|? [|? [|? [|? ?]]]]]; try discriminate. reflexivity.
Qed.

Lemma loop_trace_unpacks (t : list (call LogRecord)) :
  loop_trace t -> Forall (fun b => length b = 4) (unpacks_of t).
Proof.
  induction 1; simpl; auto;
    (constructor; [eauto using header_length|auto]).
Qed.

Lemma loop_trace_handled (t : list (call LogRecord)) :
  loop_trace t ->
  forall (n : string) (r : LogRecord),
    In (Handle n r) t ->
    exists h p,
      In (Unpack h) t /\ In (Loads p) t /\
      option_map N.to_nat (Struct.unpack_L h) = Some (length p) /\
      deserialize p = Some r.
Proof.
  induction 1 as [|h Hh|h p Hh Hp Hd|h p r0 Hh Hp Hd Hn
                  |h p r0 n0 t Hh Hp Hd Hn Ht IH]; intros n r Hin.
  - destruct Hin.
  - destruct Hin as [Hin|[]]. discriminate.
  - destruct Hin as [Hin|[Hin|[]]]; discriminate.
  - destruct Hin as [Hin|[Hin|[]]]; discriminate.
  - destruct Hin as [Hin|[Hin|[Hin|Hin]]]; try discriminate.
    + injection Hin as _ <-. exists h, p. simpl. auto.
    + destruct (IH n r Hin) as (h' & p' & H1 & H2 & H3 & H4).
      exists h', p'. simpl. auto 10.
Qed.

Lemma loop_trace_loads (t : list (call LogRecord)) :
  loop_trace t ->
  forall p : bytes,
    In (Loads p) t ->
    p <> [] /\
    exists h, In (Unpack h) t /\
      option_map N.to_nat (Struct.unpack_L h) = Some (length p).
Proof.
  induction 1 as [|h Hh|h p Hh Hp Hd|h p r0 Hh Hp Hd Hn
                  |h p r0 n0 t Hh Hp Hd Hn Ht IH]; intros q Hin.
  - destruct Hin.
  - destruct Hin as [Hin|[]]. discriminate.
  - destruct Hin as [Hin|[Hin|[]]]; try discriminate.
    injection Hin as <-. split; [assumption|]. exists h. simpl. auto.
  - destruct Hin as [Hin|[Hin|[]]]; try discriminate.
    injection Hin as <-. split; [assumption|]. exists h. simpl. auto.
  - destruct Hin as [Hin|[Hin|[Hin|Hin]]]; try discriminate.
    + injection Hin as <-. split; [assumption|]. exists h. simpl. auto.
    + destruct (IH q Hin) as (H1 & h' & H2 & H3).
      split; [assumption|]. exists h'. simpl. auto.
Qed.

(** [run]: the loop, then [_shutdown_socket], inside the [with] block. *)
Lemma run_unfold (ps : list poll) (w : worker) :
  run ps w =
  match run_loop (S (length ps)) ps w with
  | (Ret _, (ps', w')) =>
      (if socket_shutdown w' then Ret tt else Raise OSError,
       (ps', log Close (log Shutdown w')))
  | (Raise e, (ps', w')) => (Raise e, (ps', log Close w'))
  | (Wait, s) => (Wait, s)
  end.
Proof.
  unfold Worker.run, with_socket, bind, _shutdown_socket.
  destruct (run_loop (S (length ps)) ps w) as [[[]|e|] [ps' w']];
    try reflexivity.
  destruct (socket_shutdown w'); reflexivity.
Qed.

Lemma run_inv (ps : list poll) (w : worker) :
  let '(r, (ps', w')) := run ps w in
  exists t,
    loop_trace t /\
    match r with
    | Ret _ => trace w' = trace w ++ t ++ [Shutdown; Close]
    | Raise e =>
        e <> StructError /\
        (trace w' = trace w ++ t ++ [Close]
         \/ (e = OSError /\ trace w' = trace w ++ t ++ [Shutdown; Close]))
    | Wait => trace w' = trace w ++ t /\ ps' = []
    end.
Proof.
  rewrite run_unfold.
  pose proof (run_loop_inv (S (length ps)) ps w (Nat.lt_succ_diag_r _)) as P.
  unfold Worker.run_post in P.
  destruct (run_loop (S (length ps)) ps w) as [r [ps' w']].
  destruct P as (_ & _ & (t & T & LT) & R).
  destruct r as [[]|e|]; [destruct (socket_shutdown w')| |];
    exists t; (split; [assumption|]); simpl.
  - rewrite T, <- !app_assoc. reflexivity.
  - split; [discriminate|]. right. split; [reflexivity|].
    rewrite T, <- !app_assoc. reflexivity.
  - split; [assumption|]. left. rewrite T, <- !app_assoc. reflexivity.
  - auto.
Qed.

(** ** Reads that are not interrupted *)

Lemma set_wire_same (w : worker) : set_wire (wire w) w = w.
Proof. destruct w; reflexivity. Qed.

Lemma firstn_firstn_skipn {A : Type} (m k : nat) (l : list A) :
  firstn m l ++ firstn k (skipn m l) = firstn (m + k) l.
Proof.
  revert l. induction m as [|m IH]; intros l; [reflexivity|].
  destruct l as [|a l]; simpl.
  - rewrite firstn_nil. reflexivity.
  - rewrite IH. reflexivity.
Qed.

(** With the flag unset, enough bytes on the wire and enough readable polls,
    [recv_loop] returns exactly the bytes that were missing. *)
Lemma recv_loop_complete (ps : list poll) :
  forall (n : nat) (chunk : bytes) (w : worker),
    _force_shutdown w = None ->
    length chunk <= n ->
    n - length chunk <= length (wire w) ->
    n - length chunk <= ready_count ps ->
    exists ps',
      recv_loop n chunk ps w =
        (Ret (chunk ++ firstn (n - length chunk) (wire w)),
         (ps', set_wire (skipn (n - length chunk) (wire w)) w))
      /\ ready_count ps <= ready_count ps' + (n - length chunk)
      /\ length ps' <= length ps.
Proof.
  induction ps as [|p ps IH]; intros n chunk w Hf Hle Hwire Hready;
    rewrite recv_loop_unfold, (read_force_None w Hf); cbn [orb];
    destruct (Nat.ltb_spec (length chunk) n) as [Hlt|Hge]; cbn [negb].
  - simpl in Hready. lia.
  - exists []. replace (n - length chunk) with 0 by lia.
    simpl. rewrite app_nil_r, set_wire_same.
    unfold chunk_result. rewrite (proj2 (Nat.eqb_eq _ _)) by lia. auto.
  - destruct p as [|k|].
    + destruct (IH n chunk w Hf Hle Hwire Hready) as (ps' & E & R & L).
      exists ps'. simpl. auto.
    + cbv zeta.
      set (m := Nat.min (S k) (n - length chunk)).
      assert (Hm : 1 <= m <= n - length chunk) by (unfold m; lia).
      assert (Hlen : length (firstn m (wire w)) = m).
      { rewrite length_firstn. lia. }
      rewrite Hlen. destruct (Nat.eqb_spec m 0) as [?|_]; [lia|].
      destruct (IH n (chunk ++ firstn m (wire w))
                  (set_wire (skipn m (wire w)) w)) as (ps' & E & R & L).
      * assumption.
      * rewrite length_app, Hlen. lia.
      * simpl. rewrite length_app, Hlen, length_skipn. lia.
      * rewrite length_app, Hlen. simpl in Hready. lia.
      * exists ps'. rewrite E. rewrite length_app, Hlen in *. simpl.
        split; [|simpl in Hready; lia].
        rewrite <- app_assoc, firstn_firstn_skipn, skipn_skipn.
        replace (m + (n - (length chunk + m))) with (n - length chunk) by lia.
        replace (n - (length chunk + m) + m) with (n - length chunk) by lia.
        reflexivity.
    + simpl in Hready. lia.
  - exists (p :: ps). replace (n - length chunk) with 0 by lia.
    simpl firstn. simpl skipn. rewrite app_nil_r, set_wire_same.
    unfold chunk_result. rewrite (proj2 (Nat.eqb_eq _ _)) by lia.
    split; [reflexivity|]. lia.
Qed.

(** With the flag unset, fewer bytes on the wire than are missing and
    enough readable polls, [recv_loop] meets the end of the stream: what it
    accumulated is dropped and the empty string is returned. *)
Lemma recv_loop_eof (ps : list poll) :
  forall (n : nat) (chunk : bytes) (w : worker),
    _force_shutdown w = None ->
    length chunk <= n ->
    length (wire w) < n - length chunk ->
    length (wire w) < ready_count ps ->
    exists ps',
      recv_loop n chunk ps w = (Ret [], (ps', set_wire [] w))
      /\ length ps' <= length ps.
Proof.
  induction ps as [|p ps IH]; intros n chunk w Hf Hle Hwire Hready;
    rewrite recv_loop_unfold, (read_force_None w Hf); cbn [orb];
    (destruct (Nat.ltb_spec (length chunk) n) as [Hlt|Hge]; [|lia]);
    cbn [negb].
  - simpl in Hready. lia.
  - destruct p as [|k|].
    + destruct (IH n chunk w Hf Hle Hwire Hready) as (ps' & E & L).
      exists ps'. simpl. auto.
    + cbv zeta.
      set (m := Nat.min (S k) (n - length chunk)).
      assert (Hm : 1 <= m <= n - length chunk) by (unfold m; lia).
      destruct (wire w) as [|b bs] eqn:W.
      * exists ps. rewrite firstn_nil, skipn_nil, app_nil_r. simpl.
        unfold chunk_result.
        destruct (Nat.eqb_spec (length chunk) n) as [?|_]; [lia|]. auto.
      * assert (Hlen : length (firstn m (b :: bs)) = Nat.min m (S (length bs))).
        { rewrite length_firstn. reflexivity. }
        destruct (Nat.eqb_spec (length (firstn m (b :: bs))) 0) as [?|_];
          [lia|].
        destruct (IH n (chunk ++ firstn m (b :: bs))
                    (set_wire (skipn m (b :: bs)) w)) as (ps' & E & L).
        -- assumption.
        -- rewrite length_app, Hlen. simpl in Hwire. lia.
        -- cbn [wire set_wire]. rewrite length_app, Hlen, length_skipn.
           simpl in Hwire. simpl length. lia.
        -- cbn [wire set_wire]. rewrite length_skipn. simpl in Hready.
           simpl length. simpl length in Hready. lia.
        -- exists ps'. rewrite E. simpl. split; [reflexivity|lia].
    + simpl in Hready. lia.
Qed.

(** ** One iteration of the loop of [run] on a stream of frames *)

(** Reading the length prefix of a frame. *)
Lemma recv_prefix (ps : list poll) (w : worker) (n : N) (rest : bytes) :
  _force_shutdown w = None ->
  wire w = Struct.pack_L n ++ rest ->
  4 <= ready_count ps ->
  exists ps1,
    recv_loop 4 [] ps w = (Ret (Struct.pack_L n), (ps1, set_wire rest w))
    /\ ready_count ps <= ready_count ps1 + 4
    /\ length ps1 < length ps.
Proof.
  intros Hf Hw Hr.
  destruct (recv_loop_complete ps 4 [] w Hf) as (ps1 & E & R & L);
    try (simpl; lia).
  { rewrite Hw, length_app. simpl. lia. }
  exists ps1. rewrite Hw in E. simpl in E, R. split; [exact E|].
  split; [lia|].
  pose proof (recv_loop_post ps 4 [] w (Nat.le_0_l 4)) as P.
  unfold recv_post in P. rewrite E in P.
  destruct P as (_ & _ & got & _ & _ & _ & S1).
  apply S1; [simpl; lia|discriminate].
Qed.

(** A frame with a non-empty payload: the payload is deserialized and, when
    that succeeds, handled; the loop goes on with the rest of the wire. *)
Lemma run_loop_frame (f : nat) (ps : list poll) (w : worker)
    (p rest : bytes) :
  _force_shutdown w = None ->
  wire w = frame p ++ rest ->
  p <> [] ->
  (N.of_nat (length p) < 4294967296)%N ->
  4 + length p <= ready_count ps ->
  exists ps',
    ready_count ps <= ready_count ps' + (4 + length p)
    /\ length ps' < length ps
    /\ run_loop (S f) ps w =
       match deserialize p with
       | Some r =>
           match dispatch r with
           | Some name =>
               run_loop f ps'
                 (LoggingWorkerThread rest None
                    (trace w
                     ++ [Unpack (Struct.pack_L (N.of_nat (length p)));
                         Loads p; Handle name r]))
           | None =>
               (Raise LoggingError,
                (ps', LoggingWorkerThread rest None
                        (trace w
                         ++ [Unpack (Struct.pack_L (N.of_nat (length p)));
                             Loads p])))
           end
       | None =>
           (Raise UnpicklingError,
            (ps', LoggingWorkerThread rest None
                    (trace w ++ [Unpack (Struct.pack_L (N.of_nat (length p)));
                                 Loads p])))
       end.
Proof.
  intros Hf Hw Hp Hn Hr.
  unfold frame in Hw. rewrite <- app_assoc in Hw.
  destruct (recv_prefix ps w _ _ Hf Hw) as (ps1 & E1 & R1 & L1); [lia|].
  set (h := Struct.pack_L (N.of_nat (length p))) in *.
  destruct (recv_loop_complete ps1 (length p) []
              (log (Unpack h) (set_wire (p ++ rest) w)))
    as (ps2 & E2 & R2 & L2); try (simpl; lia).
  { assumption. }
  { simpl. rewrite length_app. lia. }
  simpl in E2, R2.
  rewrite Nat.sub_0_r, firstn_app, Nat.sub_diag, firstn_all, app_nil_r in E2.
  rewrite skipn_app, Nat.sub_diag, skipn_all in E2. simpl in E2.
  exists ps2. split; [lia|]. split; [lia|].
  rewrite run_loop_unfold, (read_force_None w Hf), E1.
  change (length h) with 4. cbn [Nat.eqb].
  unfold h at 1. rewrite (unpack_pack_L _ Hn), Nat2N.id, E2.
  destruct (Nat.eqb_spec (length p) 0) as [Z|_].
  { destruct p; [congruence|discriminate]. }
  unfold log, set_wire; simpl. rewrite Hf.
  destruct (deserialize p) as [r|]; [destruct (dispatch r)|];
    rewrite <- !app_assoc; reflexivity.
Qed.

(** A frame that announces an empty payload ends the loop: [_recv_chunk 0]
    returns the empty string, which [run] reads as a closed socket. *)
Lemma run_loop_empty_payload (f : nat) (ps : list poll) (w : worker)
    (rest : bytes) :
  _force_shutdown w = None ->
  wire w = frame [] ++ rest ->
  4 <= ready_count ps ->
  exists ps',
    run_loop (S f) ps w =
      (Ret tt, (ps', LoggingWorkerThread rest None
                       (trace w ++ [Unpack (Struct.pack_L 0)]))).
Proof.
  intros Hf Hw Hr.
  destruct (recv_prefix ps w 0%N rest Hf Hw Hr) as (ps1 & E1 & R1 & L1).
  exists ps1.
  rewrite run_loop_unfold, (read_force_None w Hf), E1. simpl.
  rewrite recv_loop_unfold. unfold read_force, log, set_wire; simpl.
  rewrite Hf. reflexivity.
Qed.

(** The end of the stream between two frames, or inside a length prefix. *)
Lemma run_loop_eof (f : nat) (ps : list poll) (w : worker) :
  _force_shutdown w = None ->
  length (wire w) < 4 ->
  length (wire w) < ready_count ps ->
  exists ps', run_loop (S f) ps w = (Ret tt, (ps', set_wire [] w)).
Proof.
  intros Hf Hw Hr.
  destruct (recv_loop_eof ps 4 [] w Hf) as (ps1 & E1 & L1);
    try (simpl; lia).
  exists ps1. rewrite run_loop_unfold, (read_force_None w Hf), E1.
  reflexivity.
Qed.

(** ** A whole stream of well-formed frames *)

Lemma handled_of_app (t1 t2 : list (call LogRecord)) :
  handled_of (t1 ++ t2) = handled_of t1 ++ handled_of t2.
Proof. apply flat_map_app. Qed.

Lemma loads_of_app (t1 t2 : list (call LogRecord)) :
  loads_of (t1 ++ t2) = loads_of t1 ++ loads_of t2.
Proof. apply flat_map_app. Qed.

Lemma unpacks_of_app (t1 t2 : list (call LogRecord)) :
  unpacks_of (t1 ++ t2) = unpacks_of t1 ++ unpacks_of t2.
Proof. apply flat_map_app. Qed.

Lemma socket_calls_of_app (t1 t2 : list (call LogRecord)) :
  socket_calls_of (t1 ++ t2) = socket_calls_of t1 ++ socket_calls_of t2.
Proof. apply filter_app. Qed.

Lemma frame_calls_accepted (p : bytes) (r : LogRecord) (name : string) :
  dispatch r = Some name ->
  Worker.frame_calls record_name logger_handle p r
  = [Unpack (Struct.pack_L (N.of_nat (length p))); Loads p; Handle name r].
Proof. unfold Worker.frame_calls. intros ->. reflexivity. Qed.

Lemma stream_calls_handled (payloads : list bytes) (records : list LogRecord) :
  length payloads = length records ->
  Forall (fun r => dispatch r <> None) records ->
  handled_of (stream_calls payloads records) = records.
Proof.
  revert records. induction payloads as [|p ps IH]; intros [|r rs] H Ha;
    try discriminate; [reflexivity|].
  inversion Ha as [|? ? Hr Ha']; subst.
  destruct (dispatch r) as [name|] eqn:D; [|congruence].
  cbn [Worker.stream_calls]. rewrite (frame_calls_accepted p r name D).
  simpl. f_equal. apply IH; [simpl in H; lia|assumption].
Qed.

Lemma stream_calls_loads (payloads : list bytes) (records : list LogRecord) :
  length payloads = length records ->
  loads_of (stream_calls payloads records) = payloads.
Proof.
  revert records. induction payloads as [|p ps IH]; intros [|r rs] H;
    try discriminate; [reflexivity|].
  cbn [Worker.stream_calls]. unfold Worker.frame_calls.
  rewrite !loads_of_app. simpl.
  destruct (Worker.dispatch record_name logger_handle r); simpl;
    f_equal; apply IH; simpl in H; lia.
Qed.

Lemma run_loop_stream (payloads : list bytes) (records : list LogRecord) :
  Forall2 (fun p r => deserialize p = Some r) payloads records ->
  Forall (fun r => dispatch r <> None) records ->
  forall (f : nat) (ps : list poll) (w : worker),
    _force_shutdown w = None ->
    wire w = stream payloads ->
    Forall (fun p => p <> [] /\ (N.of_nat (length p) < 4294967296)%N)
      payloads ->
    length (stream payloads) < ready_count ps ->
    length ps < f ->
    exists ps',
      run_loop f ps w =
        (Ret tt, (ps', LoggingWorkerThread [] None
                         (trace w ++ stream_calls payloads records))).
Proof.
  induction 1 as [|p r payloads records Hd _ IH];
    intros Ha f ps w Hf Hw Hwf Hr Hfuel;
    (destruct f as [|f]; [lia|]).
  - destruct (run_loop_eof f ps w Hf) as (ps' & E);
      try (rewrite Hw; simpl; lia).
    exists ps'. rewrite E. unfold set_wire. rewrite Hf. simpl.
    rewrite app_nil_r. reflexivity.
  - inversion Hwf as [|? ? [Hp Hn] Hwf']; subst.
    inversion Ha as [|? ? Hr0 Ha']; subst.
    destruct (dispatch r) as [name|] eqn:D; [|congruence].
    cbn [stream flat_map] in Hw, Hr. fold (stream payloads) in Hw, Hr.
    rewrite length_app in Hr. unfold frame in Hr at 1.
    rewrite length_app, length_pack_L in Hr.
    destruct (run_loop_frame f ps w p (stream payloads) Hf Hw Hp Hn)
      as (ps1 & R1 & L1 & E1); [lia|].
    rewrite Hd, D in E1.
    destruct (IH Ha' f ps1
                (LoggingWorkerThread (stream payloads) None
                   (trace w ++ [Unpack (Struct.pack_L (N.of_nat (length p)));
                                Loads p; Handle name r])))
      as (ps' & E); try reflexivity; try assumption; try lia.
    exists ps'. rewrite E1, E. cbn [Worker.stream_calls trace].
    rewrite (frame_calls_accepted p r name D), <- app_assoc. reflexivity.
Qed.

(** With nothing left on the wire, an iteration of the loop makes no call:
    it meets the end of the stream, waits, or fails in [recv]. *)
Lemma run_loop_drained (f : nat) (ps : list poll) (w : worker) :
  wire w = [] ->
  let '(r, (_, w')) := run_loop (S f) ps w in
  trace w' = trace w /\ wire w' = [] /\
  forall e, r = Raise e -> e = OSError.
Proof.
  intros Hw. rewrite run_loop_unfold.
  destruct (read_force w) as [forced w0] eqn:E.
  pose proof (read_force_frame w) as [Hw0 Ht0]. rewrite E in Hw0, Ht0.
  simpl in Hw0, Ht0.
  destruct forced.
  { repeat split; try congruence; try discriminate. }
  pose proof (recv_loop_post ps 4 [] w0 (Nat.le_0_l 4)) as P.
  unfold recv_post in P.
  destruct (recv_loop 4 [] ps w0) as [[b|e|] [ps1 w1]];
    destruct P as (T & _ & got & G & _ & R);
    rewrite Hw0, Hw in G; symmetry in G; apply app_eq_nil in G;
    destruct G as [-> G].
  - destruct R as [[[-> L]|[-> _]] _]; [discriminate|].
    simpl. repeat split; try congruence; try discriminate.
  - repeat split; try congruence; try discriminate.
  - repeat split; try congruence; try discriminate.
Qed.

(** ** Streams of well-formed frames under any script *)

Lemma firstn_length_app {A : Type} (l1 l2 : list A) (n : nat) :
  length l1 = n -> firstn n (l1 ++ l2) = l1.
Proof.
  intros <-. rewrite firstn_app, Nat.sub_diag, firstn_all. simpl.
  apply app_nil_r.
Qed.

Lemma skipn_length_app {A : Type} (l1 l2 : list A) (n : nat) :
  length l1 = n -> skipn n (l1 ++ l2) = l2.
Proof.
  intros <-. rewrite skipn_app, Nat.sub_diag, skipn_all. reflexivity.
Qed.

(** With the flag unset and the bytes asked for still to come,
    [recv_loop] either returns exactly these bytes or stops (waiting or on
    an error) with some of them unread. *)
Lemma recv_loop_enough (ps : list poll) :
  forall (n : nat) (chunk : bytes) (w : worker),
    _force_shutdown w = None ->
    length chunk <= n ->
    n - length chunk <= length (wire w) ->
    match recv_loop n chunk ps w with
    | (Ret bs, (_, w')) =>
        bs = chunk ++ firstn (n - length chunk) (wire w) /\
        w' = set_wire (skipn (n - length chunk) (wire w)) w
    | (_, (_, w')) => wire w' <> [] /\ trace w' = trace w
    end.
Proof.
  induction ps as [|p ps IH]; intros n chunk w Hf Hle Hwire;
    rewrite recv_loop_unfold, (read_force_None w Hf); cbn [orb];
    destruct (Nat.ltb_spec (length chunk) n) as [Hlt|Hge]; cbn [negb].
  - split; [|reflexivity]. intros E. rewrite E in Hwire. simpl in Hwire. lia.
  - replace (n - length chunk) with 0 by lia.
    simpl. rewrite app_nil_r, set_wire_same.
    unfold chunk_result. rewrite (proj2 (Nat.eqb_eq _ _)) by lia. auto.
  - destruct p as [|k|].
    + apply IH; assumption.
    + cbv zeta.
      set (m := Nat.min (S k) (n - length chunk)).
      assert (Hm : 1 <= m <= n - length chunk) by (unfold m; lia).
      assert (Hlen : length (firstn m (wire w)) = m).
      { rewrite length_firstn. lia. }
      rewrite Hlen. destruct (Nat.eqb_spec m 0) as [?|_]; [lia|].
      specialize (IH n (chunk ++ firstn m (wire w))
                    (set_wire (skipn m (wire w)) w) Hf).
      rewrite length_app, Hlen in IH. cbn [wire set_wire trace] in IH.
      rewrite length_skipn in IH.
      destruct (recv_loop n (chunk ++ firstn m (wire w)) ps
                  (set_wire (skipn m (wire w)) w)) as [[bs|e|] [ps' w']];
        (destruct IH as [I1 I2]; [lia|lia|]); [|auto|auto].
      split.
      * rewrite I1, <- app_assoc, firstn_firstn_skipn.
        replace (m + (n - (length chunk + m))) with (n - length chunk) by lia.
        reflexivity.
      * rewrite I2, skipn_skipn. unfold set_wire; simpl.
        replace (n - (length chunk + m) + m) with (n - length chunk) by lia.
        reflexivity.
    + split; [|reflexivity].
      intros E. rewrite E in Hwire. simpl in Hwire. lia.
  - replace (n - length chunk) with 0 by lia.
    simpl firstn. simpl skipn. rewrite app_nil_r, set_wire_same.
    unfold chunk_result. rewrite (proj2 (Nat.eqb_eq _ _)) by lia. auto.
Qed.

(** Frames whose payloads deserialize to records the logger takes, under
    any script: the records handled are a prefix of the records of the
    frames, all of them once the wire has been read to its end; the loop
    returns only then, and raises only on an error of [recv]. *)
Lemma run_loop_stream_any (payloads : list bytes) (records : list LogRecord) :
  Forall2 (fun p r => deserialize p = Some r) payloads records ->
  Forall (fun r => dispatch r <> None) records ->
  forall (f : nat) (ps : list poll) (w : worker),
    _force_shutdown w = None ->
    wire w = stream payloads ->
    Forall (fun p => p <> [] /\ (N.of_nat (length p) < 4294967296)%N)
      payloads ->
    length ps < f ->
    let '(r, (_, w')) := run_loop f ps w in
    exists t,
      trace w' = trace w ++ t /\
      (exists k, handled_of t = firstn k records) /\
      (wire w' = [] -> handled_of t = records /\ loads_of t = payloads) /\
      (r = Ret tt -> wire w' = []) /\
      (forall e, r = Raise e -> e = OSError).
Proof.
  induction 1 as [|p r payloads records Hd _ IH];
    intros Ha f ps w Hf Hw Hwf Hfuel;
    (destruct f as [|f]; [lia|]).
  - pose proof (run_loop_drained f ps w Hw) as D.
    destruct (run_loop (S f) ps w) as [r [ps' w']].
    destruct D as (D1 & D2 & D3).
    exists []. rewrite app_nil_r. repeat split; auto. exists 0. reflexivity.
  - inversion Hwf as [|? ? [Hp Hn] Hwf']; subst.
    inversion Ha as [|? ? Hr0 Ha']; subst.
    destruct (dispatch r) as [name|] eqn:D; [|congruence].
    cbn [stream flat_map] in Hw. fold (stream payloads) in Hw.
    unfold frame in Hw. rewrite <- app_assoc in Hw.
    set (h := Struct.pack_L (N.of_nat (length p))) in *.
    rewrite run_loop_unfold, (read_force_None w Hf).
    pose proof (recv_loop_enough ps 4 [] w Hf (Nat.le_0_l 4)) as P1.
    pose proof (recv_loop_post ps 4 [] w (Nat.le_0_l 4)) as Q1.
    unfold recv_post in Q1.
    assert (Stop : forall (w' : worker) (t0 : list (call LogRecord)),
              wire w' <> [] -> handled_of t0 = [] ->
              trace w' = trace w ++ t0 ->
              exists t,
                trace w' = trace w ++ t /\
                (exists k, handled_of t = firstn k (r :: records)) /\
                (wire w' = [] ->
                 handled_of t = r :: records /\ loads_of t = p :: payloads)).
    { intros w' t0 Hne Hh Ht. exists t0. split; [assumption|].
      split; [exists 0; assumption|]. intros E. contradiction. }
    destruct (recv_loop 4 [] ps w) as [[b|e|] [ps1 w1]].
    2:{ destruct P1 as [P1 P2]; [rewrite Hw, length_app; simpl; lia|].
        destruct Q1 as (_ & _ & got & _ & _ & ->).
        destruct (Stop w1 [] P1 eq_refl) as (t & T & K & W);
          [rewrite app_nil_r; assumption|].
        exists t. split; [exact T|]. split; [exact K|]. split; [exact W|].
        split; [discriminate|].
        intros e0 E0. injection E0 as <-. reflexivity. }
    2:{ destruct P1 as [P1 P2]; [rewrite Hw, length_app; simpl; lia|].
        destruct (Stop w1 [] P1 eq_refl) as (t & T & K & W);
          [rewrite app_nil_r; assumption|].
        exists t. split; [exact T|]. split; [exact K|]. split; [exact W|].
        split; intros; discriminate. }
    destruct P1 as [P1 P2]; [rewrite Hw, length_app; simpl; lia|].
    assert (Lh : length h = 4) by apply length_pack_L.
    assert (Uh : Struct.unpack_L h = Some (N.of_nat (length p)))
      by exact (unpack_pack_L _ Hn).
    rewrite Hw in P1, P2. change (4 - length (@nil byte)) with 4 in P1, P2.
    rewrite (firstn_length_app h (p ++ stream payloads) 4 Lh) in P1.
    rewrite (skipn_length_app h (p ++ stream payloads) 4 Lh) in P2.
    simpl in P1. subst b w1.
    destruct Q1 as (_ & _ & got & _ & _ & _ & S1).
    assert (L1 : length ps1 < length ps).
    { apply S1; [simpl; lia|]. intros E. rewrite E in Lh. discriminate. }
    rewrite Lh, Uh, Nat2N.id. cbn [Nat.eqb].
    set (w1 := log (Unpack h) (set_wire (p ++ stream payloads) w)).
    pose proof (recv_loop_enough ps1 (length p) [] w1 Hf (Nat.le_0_l _))
      as P2.
    pose proof (recv_loop_post ps1 (length p) [] w1 (Nat.le_0_l _)) as Q2.
    unfold recv_post in Q2.
    destruct (recv_loop (length p) [] ps1 w1) as [[pl|e|] [ps2 w2]].
    2:{ destruct P2 as [P2 P3]; [simpl; rewrite length_app; lia|].
        destruct Q2 as (_ & _ & got2 & _ & _ & ->).
        destruct (Stop w2 [Unpack h] P2 eq_refl) as (t & T & K & W);
          [rewrite P3; reflexivity|].
        exists t. split; [exact T|]. split; [exact K|]. split; [exact W|].
        split; [discriminate|].
        intros e0 E0. injection E0 as <-. reflexivity. }
    2:{ destruct P2 as [P2 P3]; [simpl; rewrite length_app; lia|].
        destruct (Stop w2 [Unpack h] P2 eq_refl) as (t & T & K & W);
          [rewrite P3; reflexivity|].
        exists t. split; [exact T|]. split; [exact K|]. split; [exact W|].
        split; intros; discriminate. }
    destruct P2 as [P2 P3]; [simpl; rewrite length_app; lia|].
    cbn [length wire w1 log set_wire] in P2, P3.
    rewrite Nat.sub_0_r in P2, P3.
    rewrite (firstn_length_app p (stream payloads) _ eq_refl) in P2.
    rewrite (skipn_length_app p (stream payloads) _ eq_refl) in P3.
    simpl in P2. subst pl w2.
    destruct Q2 as (_ & L2 & _).
    destruct (Nat.eqb_spec (length p) 0) as [Z|_].
    { destruct p; [congruence|discriminate]. }
    rewrite Hd, D.
    match goal with
    | |- context [run_loop f ps2 ?w3] =>
        specialize (IH Ha' f ps2 w3 Hf eq_refl Hwf');
        destruct (run_loop f ps2 w3) as [r3 [ps3 w3']]
    end.
    destruct IH as (t & T & (k & K) & W & R & O); [lia|].
    simpl in T.
    exists ([Unpack h; Loads p; Handle name r] ++ t).
    split; [rewrite T, <- !app_assoc; reflexivity|].
    split; [exists (S k); simpl; f_equal; assumption|].
    split; [|auto].
    intros E. destruct (W E) as [W1 W2]. simpl. split; f_equal; assumption.
Qed.

(** ** [run] as a whole *)

Lemma unpack_L_zero (h : bytes) :
  Struct.unpack_L h = Some 0%N -> h = Struct.pack_L 0.
Proof.
  destruct h as [|b3 [|b2 [|b1 [|b0 [|? ?]]]]]; try discriminate.
  simpl. intros H. injection H as H.
  assert (Z : forall b, Byte.to_N b = 0%N -> b = x00).
  { intros b Hb. pose proof (Byte.of_to_N b) as E. rewrite Hb in E.
    simpl in E. congruence. }
  rewrite (Z b3), (Z b2), (Z b1), (Z b0) by lia. reflexivity.
Qed.

(** C1 (as amended).  A deserialization failure is not caught.  When the
    next frame on the wire has a non-empty payload that [pickle.loads] or
    [makeLogRecord] rejects, [run] raises: the exception leaves the loop,
    nothing is handled for that frame, the rest of the wire is never read,
    and the [with] block closes the socket (no [shutdown]). *)
Theorem C1_deserialization_failure_ends_worker
    (bad rest : bytes) (ps : list poll) (w : worker) :
  _force_shutdown w = None ->
  wire w = frame bad ++ rest ->
  bad <> [] ->
  (N.of_nat (length bad) < 4294967296)%N ->
  deserialize bad = None ->
  4 + length bad <= ready_count ps ->
  exists ps',
    run ps w =
      (Raise UnpicklingError,
       (ps', LoggingWorkerThread rest None
               (trace w ++ [Unpack (Struct.pack_L (N.of_nat (length bad)));
                            Loads bad; Close]))).
Proof.
  intros Hf Hw Hne Hn Hd Hr.
  destruct (run_loop_frame (length ps) ps w bad rest Hf Hw Hne Hn Hr)
    as (ps' & _ & _ & E).
  rewrite Hd in E. exists ps'. rewrite run_unfold, E.
  unfold log; simpl. rewrite <- app_assoc. reflexivity.
Qed.

(** X22.  A frame with a non-empty payload [P] shorter than 2^32 bytes,
    alone on the wire, with no forced stop and enough readable polls for its bytes:
    [run] calls [pickle.loads] exactly once, on exactly [P], however the
    bytes are cut into reads and whatever the deserializer, the logging
    system and [shutdown] answer. *)
Theorem X22_framing_roundtrip_nonempty (P : bytes) (ps : list poll) :
  P <> [] ->
  (N.of_nat (length P) < 4294967296)%N ->
  4 + length P <= ready_count ps ->
  loads_of
    (trace (snd (snd (run ps
       (init (Struct.pack_L (N.of_nat (length P)) ++ P) None))))) = [P].
Proof.
  intros Hne Hn Hr.
  set (w := init (Struct.pack_L (N.of_nat (length P)) ++ P) None).
  assert (Hw : wire w = frame P ++ []) by (rewrite app_nil_r; reflexivity).
  destruct (run_loop_frame (length ps) ps w P [] eq_refl Hw Hne Hn Hr)
    as (ps1 & R1 & L1 & E1).
  rewrite run_unfold, E1.
  destruct (deserialize P) as [r|]; [|reflexivity].
  destruct (dispatch r) as [name|]; [|reflexivity].
  destruct (length ps) as [|f]; [lia|].
  match goal with
  | |- context [run_loop (S f) ps1 ?w1] =>
      pose proof (run_loop_drained f ps1 w1 eq_refl) as D;
      destruct (run_loop (S f) ps1 w1) as [[[]|e|] [ps2 w2]]
  end; destruct D as (D & _ & _); simpl in D |- *.
  - unfold log; simpl. rewrite D, !loads_of_app. reflexivity.
  - unfold log; simpl. rewrite D, !loads_of_app. reflexivity.
  - rewrite D. reflexivity.
Qed.

(** [_recv_chunk 0] returns the empty string at once, without a poll. *)
Lemma recv_chunk_zero (ps : list poll) (w : worker) :
  _recv_chunk 0 ps w = (Ret [], (ps, snd (read_force w))).
Proof.
  unfold _recv_chunk. rewrite recv_loop_unfold.
  destruct (read_force w) as [b w1]. simpl.
  rewrite orb_true_r. reflexivity.
Qed.

(** C2 (code bug).  The frame of the empty payload, [00 00 00 00]: its
    length 0 is below 2^32, and the claim has exactly one deserialization
    attempt, on the empty string.  Under every script [run] calls
    [pickle.loads] not once.  Once the four bytes have arrived, the length 0
    makes [_recv_chunk 0] return the empty string, the value that stands for
    a closed socket: [run] leaves its loop with the peer still connected,
    and whatever follows the frame on the wire stays unread while the socket
    is shut down and closed. *)
Theorem C2_empty_payload_not_deserialized (rest : bytes) (ps : list poll) :
  loads_of (trace (snd (snd (run ps (init (frame [] ++ rest) None))))) = []
  /\
  (4 <= ready_count ps ->
   exists ps',
     run ps (init (frame [] ++ rest) None)
     = (if socket_shutdown
             (LoggingWorkerThread rest None [Unpack (Struct.pack_L 0)])
        then Ret tt else Raise OSError,
        (ps', LoggingWorkerThread rest None
                [Unpack (Struct.pack_L 0); Shutdown; Close]))).
Proof.
  set (w := init (frame [] ++ rest) None). split.
  - rewrite run_unfold, run_loop_unfold, (read_force_None w eq_refl).
    pose proof (recv_loop_enough ps 4 [] w eq_refl (Nat.le_0_l 4)) as P.
    destruct (recv_loop 4 [] ps w) as [[b|e|] [ps1 w1]].
    + destruct P as [Pb Pw]; [simpl; lia|].
      change (b = Struct.pack_L 0) in Pb.
      change (w1 = set_wire rest w) in Pw.
      subst b w1.
      change (length (Struct.pack_L 0) =? 0) with false. cbv iota.
      change (Struct.unpack_L (Struct.pack_L 0)) with (Some 0%N).
      cbv iota beta. change (N.to_nat 0) with 0.
      pose proof (recv_chunk_zero ps1
                    (log (Unpack (Struct.pack_L 0)) (set_wire rest w))) as Z.
      unfold _recv_chunk in Z. rewrite Z. reflexivity.
    + destruct P as [_ P]; [simpl; lia|].
      simpl. unfold log; simpl. rewrite P. reflexivity.
    + destruct P as [_ P]; [simpl; lia|]. simpl. rewrite P. reflexivity.
  - intros Hr.
    destruct (run_loop_empty_payload (length ps) ps w rest eq_refl eq_refl Hr)
      as (ps' & E).
    exists ps'. rewrite run_unfold, E. reflexivity.
Qed.

(** C3.  [_recv_chunk n] consumes a prefix [got] of the wire; it returns
    [got] when [got] has exactly [n] bytes and the empty string otherwise,
    in which case [got] is lost.  In [run], a record is handled only after
    [pickle.loads] was called on a payload whose length is the one its
    prefix announced, and [pickle.loads] is called on such payloads only. *)
Theorem C3_recv_chunk_all_or_nothing (n : nat) (ps : list poll) (w : worker) :
  (let '(r, (_, w')) := _recv_chunk n ps w in
   exists got,
     wire w = got ++ wire w' /\
     match r with
     | Ret bs => (bs = got /\ length got = n) \/ (bs = [] /\ length got < n)
     | Raise _ | Wait => True
     end)
  /\
  (let '(_, (_, w')) := run ps w in
   exists t,
     trace w' = trace w ++ t /\
     (forall p, In (Loads p) t ->
        p <> [] /\
        exists h, In (Unpack h) t /\
          option_map N.to_nat (Struct.unpack_L h) = Some (length p)) /\
     (forall name r, In (Handle name r) t ->
        exists h p, In (Unpack h) t /\ In (Loads p) t /\
          option_map N.to_nat (Struct.unpack_L h) = Some (length p) /\
          deserialize p = Some r)).
Proof.
  split.
  - pose proof (recv_loop_post ps n [] w (Nat.le_0_l n)) as P.
    unfold recv_post, _recv_chunk in *.
    destruct (recv_loop n [] ps w) as [r [ps' w']].
    destruct P as (_ & _ & got & G & _ & R). exists got.
    split; [assumption|]. destruct r as [bs|e|]; auto.
    destruct R as [R _]. simpl in R.
    destruct R as [[-> R]|R]; [left|right]; auto.
  - pose proof (run_inv ps w) as P.
    destruct (run ps w) as [r [ps' w']].
    destruct P as (t & LT & R).
    assert (Hin : forall c tl, In c (t ++ tl) ->
              (forall c', In c' tl -> c' = Shutdown \/ c' = Close) ->
              (c <> Shutdown /\ c <> Close) -> In c t).
    { intros c tl H Htl [N1 N2]. apply in_app_or in H.
      destruct H as [H|H]; [assumption|].
      destruct (Htl c H); contradiction. }
    assert (Hup : forall tl c, In c t -> In c (t ++ tl))
      by (intros; apply in_or_app; auto).
    assert (Tl2 : forall c' : call LogRecord,
              In c' [Shutdown; Close] -> c' = Shutdown \/ c' = Close)
      by (simpl; intuition auto).
    assert (Tl1 : forall c' : call LogRecord,
              In c' [Close] -> c' = Shutdown \/ c' = Close)
      by (simpl; intuition auto).
    assert (Tl0 : forall c' : call LogRecord,
              In c' [] -> c' = Shutdown \/ c' = Close)
      by (simpl; intuition auto).
    assert (K : exists tl, (forall c' : call LogRecord,
                  In c' tl -> c' = Shutdown \/ c' = Close)
                /\ trace w' = trace w ++ t ++ tl).
    { destruct r as [[]|e|].
      - exists [Shutdown; Close]. auto.
      - destruct R as [_ [R|[_ R]]].
        + exists [Close]. auto.
        + exists [Shutdown; Close]. auto.
      - exists []. rewrite app_nil_r. destruct R. auto. }
    destruct K as (tl & Htl & T).
    exists (t ++ tl). split; [assumption|]. split.
    + intros p H. apply Hin in H; [|assumption|split; discriminate].
      destruct (loop_trace_loads t LT p H) as (N1 & h & H1 & H2).
      split; [assumption|]. exists h. auto.
    + intros name r0 H. apply Hin in H; [|assumption|split; discriminate].
      destruct (loop_trace_handled t LT name r0 H) as (h & p & H1 & H2 & H3).
      exists h, p. auto.
Qed.

(** C4.  [N] frames, sent in sequence with no forced stop, whose payloads
    deserialize (the empty string is not a pickle) to records that the
    logging system takes.  However the bytes are cut into reads and
    wherever the script ends, the records handled are the records of the
    first [k] frames, in the order of the frames; once [run] has read the
    wire to its end it has handled [N] records, those of the frames in
    their order; and [run] returns only then.  With enough readable polls
    the wire is read to its end and [run] does not wait. *)
Theorem C4_order_preservation
    (payloads : list bytes) (records : list LogRecord) (ps : list poll) :
  deserialize [] = None ->
  Forall2 (fun p r => deserialize p = Some r) payloads records ->
  Forall (fun r => dispatch r <> None) records ->
  Forall (fun p => (N.of_nat (length p) < 4294967296)%N) payloads ->
  let '(r, (_, w')) := run ps (init (stream payloads) None) in
  (exists k, handled_of (trace w') = firstn k records) /\
  (wire w' = [] ->
   handled_of (trace w') = records /\
   length (handled_of (trace w')) = length payloads) /\
  (r = Ret tt -> wire w' = []) /\
  (length (stream payloads) < ready_count ps -> wire w' = [] /\ r <> Wait).
Proof.
  intros He Hd Ha Hn.
  assert (Hlen : length payloads = length records)
    by (eapply Forall2_length; eassumption).
  assert (Hwf : Forall (fun p => p <> [] /\
                          (N.of_nat (length p) < 4294967296)%N) payloads).
  { clear Hlen Ha. induction Hd as [|p r ps0 rs Hp _ IH];
      constructor; inversion Hn; subst; auto.
    split; [|assumption]. intros ->. congruence. }
  pose proof (run_loop_stream_any payloads records Hd Ha (S (length ps)) ps
                (init (stream payloads) None) eq_refl eq_refl Hwf
                (Nat.lt_succ_diag_r _)) as T.
  assert (R : length (stream payloads) < ready_count ps ->
              fst (run_loop (S (length ps)) ps (init (stream payloads) None))
              = Ret tt).
  { intros Hlt.
    destruct (run_loop_stream payloads records Hd Ha (S (length ps)) ps
                (init (stream payloads) None) eq_refl eq_refl Hwf Hlt)
      as (ps' & E); [lia|].
    rewrite E. reflexivity. }
  rewrite run_unfold.
  destruct (run_loop (S (length ps)) ps (init (stream payloads) None))
    as [r [ps' w']].
  destruct T as (t & T & (k & K) & W & Rt & O).
  simpl in T, R. subst t.
  assert (Hh : forall tl : list (call LogRecord),
            handled_of tl = [] ->
            handled_of (trace w' ++ tl) = handled_of (trace w')).
  { intros tl E. rewrite handled_of_app, E. apply app_nil_r. }
  destruct r as [[]|e|]; unfold log; cbn [trace wire];
    rewrite <- ?app_assoc, ?Hh by reflexivity.
  - split; [exists k; assumption|].
    split; [intros E; destruct (W E) as [W1 _]; split;
            [assumption|rewrite W1; congruence]|].
    split; [intros _; auto|].
    intros _. split; [auto|]. destruct (socket_shutdown w'); discriminate.
  - split; [exists k; assumption|].
    split; [intros E; destruct (W E) as [W1 _]; split;
            [assumption|rewrite W1; congruence]|].
    split; [discriminate|].
    intros Hlt. specialize (R Hlt). discriminate.
  - split; [exists k; assumption|].
    split; [intros E; destruct (W E) as [W1 _]; split;
            [assumption|rewrite W1; congruence]|].
    split; [discriminate|].
    intros Hlt. specialize (R Hlt). discriminate.
Qed.

(** C5 (as amended).  Whenever [run] ends, closing the socket is its last
    call and happens exactly once; the loop itself makes no socket call.
    When the loop ends without raising (end of stream between frames,
    truncated frame, empty payload, forced stop) the close is preceded by
    exactly one [shutdown(SHUT_RDWR)]: [run] returns when [shutdown]
    returns, and raises its [OSError], after the close, when [shutdown]
    raises.  When the loop raises, [shutdown] is not called and the socket
    is only closed.  While the worker is still waiting the socket is left
    alone. *)
Theorem C5_socket_release (ps : list poll) (w : worker) :
  let '(r, (_, w')) := run ps w in
  exists (t : list (call LogRecord)) (w0 : worker),
    socket_calls_of t = [] /\ trace w0 = trace w ++ t /\
    match r with
    | Ret _ =>
        socket_shutdown w0 = true /\
        trace w' = trace w0 ++ [Shutdown; Close]
    | Raise e =>
        trace w' = trace w0 ++ [Close]
        \/ (e = OSError /\ socket_shutdown w0 = false /\
            trace w' = trace w0 ++ [Shutdown; Close])
    | Wait => trace w' = trace w0
    end.
Proof.
  rewrite run_unfold.
  pose proof (run_loop_inv (S (length ps)) ps w (Nat.lt_succ_diag_r _)) as P.
  unfold Worker.run_post in P.
  destruct (run_loop (S (length ps)) ps w) as [r [ps' w0]].
  destruct P as (_ & _ & (t & T & LT) & R).
  assert (St : socket_calls_of t = []) by now apply loop_trace_sockets.
  destruct r as [[]|e|]; [destruct (socket_shutdown w0) eqn:Sh| |];
    exists t, w0; (split; [assumption|]); (split; [assumption|]);
    unfold log; simpl; rewrite <- ?app_assoc; auto.
Qed.

(** C9.  A length prefix that decodes to 0 is followed by [_recv_chunk 0],
    which returns the empty string without polling, the value that also
    signals a closed socket.  So [run] leaves its loop: nothing is
    deserialized or handled for that frame and the rest of the wire is not
    read; the socket is shut down and closed, and [run] returns unless
    [shutdown] raises. *)
Theorem C9_empty_payload_ends_loop
    (h rest : bytes) (ps : list poll) (w : worker) :
  Struct.unpack_L h = Some 0%N ->
  _force_shutdown w = None ->
  wire w = h ++ rest ->
  4 <= ready_count ps ->
  (forall (ps0 : list poll) (w0 : worker),
      _recv_chunk 0 ps0 w0 = (Ret [], (ps0, snd (read_force w0)))) /\
  exists ps',
    run ps w =
      (if socket_shutdown
            (LoggingWorkerThread rest None (trace w ++ [Unpack h]))
       then Ret tt else Raise OSError,
       (ps', LoggingWorkerThread rest None
               (trace w ++ [Unpack h; Shutdown; Close]))).
Proof.
  intros Hh Hf Hw Hr. split.
  - intros ps0 w0. apply recv_chunk_zero.
  - apply unpack_L_zero in Hh. subst h.
    destruct (run_loop_empty_payload (length ps) ps w rest Hf Hw Hr)
      as (ps' & E).
    exists ps'. rewrite run_unfold, E. unfold log; simpl.
    rewrite <- !app_assoc. reflexivity.
Qed.

(** C10.  [_recv_chunk 4] returns four bytes or the empty string, and
    [struct.unpack] is reached with four bytes only: every [Unpack] of a
    run has a four-byte argument, on which [unpack_L] is defined, and [run]
    never raises [struct.error]. *)
Theorem C10_unpack_never_fails (ps : list poll) (w : worker) :
  (match _recv_chunk 4 ps w with
   | (Ret b, _) => length b = 4 \/ b = []
   | _ => True
   end)
  /\
  (let '(r, (_, w')) := run ps w in
   r <> Raise StructError /\
   exists t,
     trace w' = trace w ++ t /\
     Forall (fun b => length b = 4 /\ Struct.unpack_L b <> None)
       (unpacks_of t)).
Proof.
  split.
  - pose proof (recv_loop_post ps 4 [] w (Nat.le_0_l 4)) as P.
    unfold recv_post, _recv_chunk in *.
    destruct (recv_loop 4 [] ps w) as [[b|e|] [ps' w']]; auto.
    destruct P as (_ & _ & got & _ & _ & [[_ R]|[R _]] & _); auto.
  - pose proof (run_inv ps w) as P.
    destruct (run ps w) as [r [ps' w']].
    destruct P as (t & LT & R).
    assert (U : Forall (fun b => length b = 4 /\ Struct.unpack_L b <> None)
                  (unpacks_of t)).
    { eapply Forall_impl; [|apply loop_trace_unpacks; eassumption].
      intros b Hb. split; [assumption|].
      destruct (unpack_L_length b Hb) as (n & -> & _). discriminate. }
    destruct r as [[]|e|].
    + split; [discriminate|]. exists (t ++ [Shutdown; Close]).
      split; [assumption|]. rewrite unpacks_of_app. simpl.
      rewrite app_nil_r. assumption.
    + destruct R as [Ne [T|[_ T]]]; (split; [congruence|]).
      * exists (t ++ [Close]). split; [assumption|].
        rewrite unpacks_of_app. simpl. rewrite app_nil_r. assumption.
      * exists (t ++ [Shutdown; Close]). split; [assumption|].
        rewrite unpacks_of_app. simpl. rewrite app_nil_r. assumption.
    + destruct R as [T _]. split; [discriminate|]. exists t. auto.
Qed.

(** ** The worker and the shutdown flag *)

(** A worker whose flag is set leaves [run] at once: no poll, no read. *)
Lemma run_forced (ps : list poll) (w : worker) :
  _force_shutdown w = Some 0 ->
  run ps w = (if socket_shutdown w then Ret tt else Raise OSError,
              (ps, log Close (log Shutdown w))).
Proof.
  intros Hf. rewrite run_unfold, run_loop_unfold, (read_force_set w Hf).
  reflexivity.
Qed.

(** Each poll is preceded by a read of the flag.  So when the flag is seen
    set after at most as many reads as there are polls left, [_recv_chunk]
    does not wait to the end of the script. *)
Lemma recv_loop_flag (ps : list poll) :
  forall (n : nat) (chunk : bytes) (w : worker) (k : nat),
    _force_shutdown w = Some k ->
    k <= length ps ->
    let '(r, (ps', w')) := recv_loop n chunk ps w in
    r <> Wait /\
    exists k', _force_shutdown w' = Some k' /\ k' <= length ps'.
Proof.
  induction ps as [|p ps IH]; intros n chunk w k Hf Hk;
    rewrite recv_loop_unfold; unfold read_force; rewrite Hf;
    destruct k as [|k]; simpl flag_read; cbv iota beta.
  - split; [discriminate|]. exists 0. auto.
  - simpl in Hk. lia.
  - split; [discriminate|]. exists 0. split; [reflexivity|lia].
  - simpl in Hk.
    destruct (false || negb (length chunk <? n)).
    { split; [discriminate|]. exists k. split; [reflexivity|simpl; lia]. }
    destruct p as [|j|].
    + apply (IH n chunk (set_force (Some k) w) k); [reflexivity|lia].
    + cbv zeta.
      match goal with
      | |- context [if ?c then _ else _] => destruct c
      end.
      * split; [discriminate|]. exists k. split; [reflexivity|lia].
      * apply (IH n _ _ k); [reflexivity|lia].
    + split; [discriminate|]. exists k. split; [reflexivity|lia].
Qed.

(** A worker told to stop ends: once the flag is seen set within the polls
    of the script, [run] returns or raises and does not wait. *)
Lemma run_loop_flag (f : nat) :
  forall (ps : list poll) (w : worker) (k : nat),
    _force_shutdown w = Some k ->
    k <= length ps ->
    length ps < f ->
    fst (run_loop f ps w) <> Wait.
Proof.
  induction f as [|f IH]; intros ps w k Hf Hk Hfuel; [lia|].
  rewrite run_loop_unfold. unfold read_force. rewrite Hf.
  destruct k as [|k]; simpl flag_read; cbv iota beta; [discriminate|].
  pose proof (recv_loop_flag ps 4 [] (set_force (Some k) w) k eq_refl) as P1.
  pose proof (recv_loop_post ps 4 [] (set_force (Some k) w) (Nat.le_0_l 4))
    as Q1.
  unfold recv_post in Q1.
  destruct (recv_loop 4 [] ps (set_force (Some k) w)) as [r1 [ps1 w1]].
  destruct P1 as (N1 & k1 & F1 & K1); [lia|].
  destruct Q1 as (_ & _ & got & _ & _ & R1).
  destruct r1 as [b|e|]; [|discriminate|congruence].
  destruct R1 as (_ & S1).
  destruct (Nat.eqb_spec (length b) 0) as [Z|NZ]; [discriminate|].
  assert (L1 : length ps1 < length ps).
  { apply S1; [simpl; lia|]. intros ->. simpl in NZ. lia. }
  destruct (Struct.unpack_L b) as [n|]; [|discriminate].
  pose proof (recv_loop_flag ps1 (N.to_nat n) [] (log (Unpack b) w1) k1 F1 K1)
    as P2.
  pose proof (recv_loop_post ps1 (N.to_nat n) [] (log (Unpack b) w1)
                (Nat.le_0_l _)) as Q2.
  unfold recv_post in Q2.
  destruct (recv_loop (N.to_nat n) [] ps1 (log (Unpack b) w1))
    as [r2 [ps2 w2]].
  destruct P2 as (N2 & k2 & F2 & K2).
  destruct Q2 as (_ & L2 & _).
  destruct r2 as [pl|e|]; [|discriminate|congruence].
  destruct (length pl =? 0); [discriminate|].
  destruct (deserialize pl) as [r|]; [|discriminate].
  destruct (dispatch r) as [name|]; [|discriminate].
  apply (IH ps2 _ k2); [exact F2|exact K2|lia].
Qed.

Lemma run_flag (ps : list poll) (w : worker) (k : nat) :
  _force_shutdown w = Some k ->
  k <= length ps ->
  fst (run ps w) <> Wait.
Proof.
  intros Hf Hk. rewrite run_unfold.
  pose proof (run_loop_flag (S (length ps)) ps w k Hf Hk
                (Nat.lt_succ_diag_r _)) as P.
  destruct (run_loop (S (length ps)) ps w) as [[[]|e|] [ps' w']];
    simpl in *; try congruence.
  destruct (socket_shutdown w'); discriminate.
Qed.

(** The result of the loop does not depend on the fuel above the length of
    the script. *)
Lemma run_loop_fuel (f1 : nat) :
  forall (f2 : nat) (ps : list poll) (w : worker),
    length ps < f1 -> length ps < f2 ->
    run_loop f1 ps w = run_loop f2 ps w.
Proof.
  induction f1 as [|f1 IH]; intros f2 ps w H1 H2; [lia|].
  destruct f2 as [|f2]; [lia|].
  rewrite !run_loop_unfold.
  destruct (read_force w) as [forced w0]. destruct forced; [reflexivity|].
  pose proof (recv_loop_post ps 4 [] w0 (Nat.le_0_l 4)) as P1.
  unfold recv_post in P1.
  destruct (recv_loop 4 [] ps w0) as [[b|e|] [ps1 w1]]; try reflexivity.
  destruct P1 as (_ & _ & _ & _ & _ & _ & S1).
  destruct (Nat.eqb_spec (length b) 0) as [Z|NZ]; [reflexivity|].
  assert (L1 : length ps1 < length ps).
  { apply S1; [simpl; lia|]. intros ->. simpl in NZ. lia. }
  destruct (Struct.unpack_L b) as [n|]; [|reflexivity].
  pose proof (recv_loop_post ps1 (N.to_nat n) [] (log (Unpack b) w1)
                (Nat.le_0_l _)) as P2.
  unfold recv_post in P2.
  destruct (recv_loop (N.to_nat n) [] ps1 (log (Unpack b) w1))
    as [[pl|e|] [ps2 w2]]; try reflexivity.
  destruct P2 as (_ & L2 & _).
  destruct (length pl =? 0); [reflexivity|].
  destruct (deserialize pl) as [r|]; [|reflexivity].
  destruct (dispatch r) as [name|]; [|reflexivity].
  apply IH; lia.
Qed.

(** With the flag unset, a poll that times out changes nothing: an idle
    connection stays open and the worker goes on as if no time had
    passed. *)
Lemma run_idle (ps : list poll) (w : worker) :
  _force_shutdown w = None ->
  run (Timeout :: ps) w = run ps w.
Proof.
  intros Hf. rewrite !run_unfold.
  assert (E : run_loop (S (length (Timeout :: ps))) (Timeout :: ps) w
              = run_loop (S (length ps)) ps w).
  { rewrite (run_loop_fuel (S (length ps)) (S (S (length ps))) ps w)
      by lia.
    simpl length.
    rewrite (run_loop_unfold (S (length ps)) (Timeout :: ps)),
            (run_loop_unfold (S (length ps)) ps).
    rewrite (read_force_None w Hf).
    rewrite (recv_loop_unfold 4 [] (Timeout :: ps)), (read_force_None w Hf).
    reflexivity. }
  rewrite E. reflexivity.
Qed.

(** With the flag unset and nothing but timeouts, the worker is still
    waiting at the end of the script and has not touched its socket. *)
Lemma run_waits (n : nat) (w : worker) :
  _force_shutdown w = None ->
  run (repeat Timeout n) w = (Wait, ([], w)).
Proof.
  intros Hf. induction n as [|n IH].
  - rewrite run_unfold, run_loop_unfold, (read_force_None w Hf).
    rewrite recv_loop_unfold, (read_force_None w Hf). reflexivity.
  - simpl repeat. rewrite run_idle by assumption. exact IH.
Qed.

(** An idle connection that the client finally closes: the worker ends
    then, with [shutdown] and [close]. *)
Lemma run_idle_then_closed (n k : nat) (ps : list poll) (w : worker) :
  _force_shutdown w = None ->
  wire w = [] ->
  run (repeat Timeout n ++ Readable k :: ps) w
  = (if socket_shutdown w then Ret tt else Raise OSError,
     (ps, log Close (log Shutdown w))).
Proof.
  intros Hf Hw. induction n as [|n IH].
  - simpl app. rewrite run_unfold, run_loop_unfold, (read_force_None w Hf).
    rewrite recv_loop_unfold, (read_force_None w Hf). cbv zeta.
    rewrite Hw, firstn_nil, skipn_nil. simpl.
    rewrite <- Hw, set_wire_same. reflexivity.
  - simpl repeat. simpl app. rewrite run_idle by assumption. exact IH.
Qed.

(** ** Further facts about reads and about [run] *)

(** X3.  With the flag unset, at least [n] bytes to come and enough
    readable polls, [_recv_chunk n] returns exactly the next [n] bytes of
    the connection and leaves the following ones, however the bytes are
    cut into reads and whatever timeouts come in between. *)
Theorem X3_recv_chunk_reassembles (n : nat) (ps : list poll) (w : worker) :
  _force_shutdown w = None ->
  n <= length (wire w) ->
  n <= ready_count ps ->
  exists ps',
    _recv_chunk n ps w
    = (Ret (firstn n (wire w)), (ps', set_wire (skipn n (wire w)) w))
    /\ length (firstn n (wire w)) = n.
Proof.
  intros Hf Hw Hr.
  destruct (recv_loop_complete ps n [] w Hf) as (ps' & E & _);
    try (simpl; lia).
  exists ps'. simpl in E. rewrite Nat.sub_0_r in E.
  split; [exact E|]. rewrite length_firstn. lia.
Qed.

(** X4.  With the flag unset, when the peer closes before [n] bytes have
    come, [_recv_chunk n] returns the empty string instead of waiting: the
    bytes it received are consumed and lost. *)
Theorem X4_recv_chunk_end_of_stream (n : nat) (ps : list poll) (w : worker) :
  _force_shutdown w = None ->
  length (wire w) < n ->
  length (wire w) < ready_count ps ->
  exists ps', _recv_chunk n ps w = (Ret [], (ps', set_wire [] w)).
Proof.
  intros Hf Hw Hr.
  destruct (recv_loop_eof ps n [] w Hf) as (ps' & E & _);
    try (simpl; lia).
  exists ps'. exact E.
Qed.

(** X5.  A connection closed inside a payload: the length prefix is
    unpacked, the partial payload is dropped, [pickle.loads] and [handle]
    are not called, and the socket is shut down and closed; [run] returns
    when [shutdown] returns and raises its [OSError] when it raises. *)
Theorem X5_truncated_payload (L : N) (partial : bytes)
    (ps : list poll) (w : worker) :
  _force_shutdown w = None ->
  wire w = Struct.pack_L L ++ partial ->
  (L < 4294967296)%N ->
  length partial < N.to_nat L ->
  4 + length partial < ready_count ps ->
  exists ps',
    run ps w =
      (if socket_shutdown
            (LoggingWorkerThread [] None
               (trace w ++ [Unpack (Struct.pack_L L)]))
       then Ret tt else Raise OSError,
       (ps', LoggingWorkerThread [] None
               (trace w ++ [Unpack (Struct.pack_L L); Shutdown; Close]))).
Proof.
  intros Hf Hw HL Hp Hr.
  destruct (recv_prefix ps w L partial Hf Hw) as (ps1 & E1 & R1 & L1); [lia|].
  destruct (recv_loop_eof ps1 (N.to_nat L) []
              (log (Unpack (Struct.pack_L L)) (set_wire partial w)))
    as (ps2 & E2 & _); try (simpl; lia); [assumption|].
  exists ps2.
  rewrite run_unfold, run_loop_unfold, (read_force_None w Hf), E1.
  change (length (Struct.pack_L L)) with 4. cbn [Nat.eqb].
  rewrite (unpack_pack_L L HL), E2. unfold log, set_wire; simpl.
  rewrite Hf, <- !app_assoc. reflexivity.
Qed.

(** X6.  A connection closed between two frames or inside a length prefix
    (fewer than four bytes to come, possibly none): nothing is unpacked,
    and the socket is shut down and closed; [run] returns when [shutdown]
    returns and raises its [OSError] when it raises. *)
Theorem X6_truncated_prefix (ps : list poll) (w : worker) :
  _force_shutdown w = None ->
  length (wire w) < 4 ->
  length (wire w) < ready_count ps ->
  exists ps',
    run ps w =
      (if socket_shutdown (LoggingWorkerThread [] None (trace w))
       then Ret tt else Raise OSError,
       (ps', LoggingWorkerThread [] None (trace w ++ [Shutdown; Close]))).
Proof.
  intros Hf Hw Hr.
  destruct (run_loop_eof (length ps) ps w Hf Hw Hr) as (ps' & E).
  exists ps'. rewrite run_unfold, E. unfold log, set_wire; simpl.
  rewrite Hf, <- !app_assoc. reflexivity.
Qed.

(** X7.  An error of [recv] is not caught: with the flag unset, when the
    first poll that does not time out ends in a socket error, [run] raises
    it; the socket is closed and not shut down, and nothing was read. *)
Theorem X7_recv_error_propagates (n : nat) (ps : list poll) (w : worker) :
  _force_shutdown w = None ->
  run (repeat Timeout n ++ Broken :: ps) w
  = (Raise OSError, (ps, log Close w)).
Proof.
  intros Hf. induction n as [|n IH].
  - simpl app. rewrite run_unfold, run_loop_unfold, (read_force_None w Hf).
    rewrite recv_loop_unfold, (read_force_None w Hf). reflexivity.
  - simpl repeat. simpl app. rewrite run_idle by assumption. exact IH.
Qed.

(** Reading a prefix of well-formed frames brings the loop to the rest of
    the wire, the calls of these frames made. *)
Lemma run_loop_prefix (payloads : list bytes) (records : list LogRecord) :
  Forall2 (fun p r => deserialize p = Some r) payloads records ->
  Forall (fun r => dispatch r <> None) records ->
  forall (f : nat) (ps : list poll) (w : worker) (rest : bytes),
    _force_shutdown w = None ->
    wire w = stream payloads ++ rest ->
    Forall (fun p => p <> [] /\ (N.of_nat (length p) < 4294967296)%N)
      payloads ->
    length (stream payloads) <= ready_count ps ->
    length ps < f ->
    exists f' ps',
      run_loop f ps w =
        run_loop f' ps'
          (LoggingWorkerThread rest None
             (trace w ++ stream_calls payloads records))
      /\ length ps' < f'
      /\ ready_count ps <= ready_count ps' + length (stream payloads).
Proof.
  induction 1 as [|p r payloads records Hd _ IH];
    intros Ha f ps w rest Hf Hw Hwf Hr Hfuel.
  - exists f, ps. simpl. rewrite app_nil_r.
    destruct w as [wi fl tr]; simpl in *; subst. auto with arith.
  - destruct f as [|f]; [lia|].
    inversion Hwf as [|? ? [Hp Hn] Hwf']; subst.
    inversion Ha as [|? ? Hr0 Ha']; subst.
    destruct (dispatch r) as [name|] eqn:D; [|congruence].
    cbn [stream flat_map] in Hw, Hr |- *. fold (stream payloads) in Hw, Hr |- *.
    rewrite <- app_assoc in Hw.
    rewrite length_app in Hr |- *. unfold frame in Hr at 1.
    unfold frame at 1. rewrite length_app, length_pack_L in Hr |- *.
    destruct (run_loop_frame f ps w p (stream payloads ++ rest) Hf Hw Hp Hn)
      as (ps1 & R1 & L1 & E1); [lia|].
    rewrite Hd, D in E1.
    set (w1 := LoggingWorkerThread (stream payloads ++ rest) None
                 (trace w ++ [Unpack (Struct.pack_L (N.of_nat (length p)));
                              Loads p; Handle name r])) in *.
    destruct (IH Ha' f ps1 w1 rest eq_refl eq_refl Hwf')
      as (f' & ps' & E & Lf & R); [lia|lia|].
    exists f', ps'. rewrite E1, E. cbn [Worker.stream_calls].
    rewrite (frame_calls_accepted p r name D). simpl. rewrite <- app_assoc.
    split; [reflexivity|]. split; [assumption|lia].
Qed.

(** X8.  Frames before a malformed one are served: when frames whose
    payloads deserialize to records that the logging system takes are
    followed by a frame whose non-empty payload does not deserialize, the
    records of the former are handled, in order, then [run] raises and
    whatever follows the malformed frame is left unread. *)
Theorem X8_records_before_a_failure
    (payloads : list bytes) (records : list LogRecord)
    (bad rest : bytes) (ps : list poll) :
  Forall2 (fun p r => deserialize p = Some r) payloads records ->
  Forall (fun r => dispatch r <> None) records ->
  Forall (fun p => p <> [] /\ (N.of_nat (length p) < 4294967296)%N)
    payloads ->
  bad <> [] ->
  (N.of_nat (length bad) < 4294967296)%N ->
  deserialize bad = None ->
  length (stream payloads) + (4 + length bad) <= ready_count ps ->
  exists ps' w',
    run ps (init (stream payloads ++ frame bad ++ rest) None)
    = (Raise UnpicklingError, (ps', w')) /\
    handled_of (trace w') = records /\
    loads_of (trace w') = payloads ++ [bad] /\
    wire w' = rest.
Proof.
  intros Hd Ha Hwf Hne Hn Hbad Hr.
  assert (Hlen : length payloads = length records)
    by (eapply Forall2_length; eassumption).
  destruct (run_loop_prefix payloads records Hd Ha (S (length ps)) ps
              (init (stream payloads ++ frame bad ++ rest) None)
              (frame bad ++ rest) eq_refl eq_refl Hwf)
    as (f' & ps1 & E & Lf & R); [lia|lia|].
  destruct f' as [|f']; [lia|].
  match type of E with
  | _ = Worker.run_loop _ _ _ _ _ _ ?w1 =>
      destruct (run_loop_frame f' ps1 w1 bad rest eq_refl eq_refl Hne Hn)
        as (ps2 & _ & _ & E2); [lia|]
  end.
  rewrite Hbad in E2. rewrite run_unfold, E, E2.
  eexists; eexists. split; [reflexivity|]. unfold log; simpl.
  rewrite <- !app_assoc, handled_of_app, loads_of_app,
    stream_calls_handled, stream_calls_loads by assumption.
  simpl. rewrite app_nil_r. auto.
Qed.

(** X9.  Frames before an empty one are served: when frames whose payloads
    deserialize to records that the logging system takes are followed by a
    frame with an empty payload, the records of the former are handled, in
    order, then [run] leaves its loop as if the peer had closed: whatever
    follows the empty frame is left unread, the socket is shut down and
    closed, and [run] returns unless [shutdown] raises. *)
Theorem X9_records_before_an_empty_payload
    (payloads : list bytes) (records : list LogRecord)
    (rest : bytes) (ps : list poll) :
  Forall2 (fun p r => deserialize p = Some r) payloads records ->
  Forall (fun r => dispatch r <> None) records ->
  Forall (fun p => p <> [] /\ (N.of_nat (length p) < 4294967296)%N)
    payloads ->
  length (stream payloads) + 4 <= ready_count ps ->
  exists ps' w0,
    run ps (init (stream payloads ++ frame [] ++ rest) None)
    = (if socket_shutdown w0 then Ret tt else Raise OSError,
       (ps', log Close (log Shutdown w0))) /\
    handled_of (trace w0) = records /\
    loads_of (trace w0) = payloads /\
    wire w0 = rest.
Proof.
  intros Hd Ha Hwf Hr.
  assert (Hlen : length payloads = length records)
    by (eapply Forall2_length; eassumption).
  destruct (run_loop_prefix payloads records Hd Ha (S (length ps)) ps
              (init (stream payloads ++ frame [] ++ rest) None)
              (frame [] ++ rest) eq_refl eq_refl Hwf)
    as (f' & ps1 & E & Lf & R); [lia|lia|].
  destruct f' as [|f']; [lia|].
  match type of E with
  | _ = Worker.run_loop _ _ _ _ _ _ ?w1 =>
      destruct (run_loop_empty_payload f' ps1 w1 rest eq_refl eq_refl)
        as (ps2 & E2); [lia|]
  end.
  rewrite run_unfold, E, E2.
  eexists; eexists. split; [reflexivity|]. simpl.
  rewrite handled_of_app, loads_of_app,
    stream_calls_handled, stream_calls_loads by assumption.
  simpl. rewrite !app_nil_r. auto.
Qed.

(** In a trace of the loop the records handled are the deserializations
    that succeeded, but for a last one that the logging system refused, and
    each is handled by the logger its own name gives. *)
Lemma loop_trace_handles_all (t : list (call LogRecord)) :
  loop_trace t ->
  (exists pending,
     flat_map (fun p => match deserialize p with
                        | Some r => [r]
                        | None => []
                        end) (loads_of t)
     = handled_of t ++ pending /\
     (pending = [] \/ exists r0, pending = [r0] /\ dispatch r0 = None))
  /\ forall n r, In (Handle n r) t -> dispatch r = Some n.
Proof.
  induction 1 as [|h Hh|h p Hh Hp Hd|h p r0 Hh Hp Hd Hx
                  |h p r0 name t Hh Hp Hd Hx Ht [(pending & IH1 & IH3) IH2]].
  - split; [exists []; auto|]. intros n r [].
  - split; [exists []; auto|]. intros n r [H|[]]. discriminate.
  - split; [exists []; simpl; rewrite Hd; auto|].
    intros n r [H|[H|[]]]; discriminate.
  - split; [exists [r0]; simpl; rewrite Hd; split; [reflexivity|]; right;
            exists r0; auto|].
    intros n r [H|[H|[]]]; discriminate.
  - split.
    + exists pending. simpl. rewrite Hd. simpl. rewrite IH1. auto.
    + intros n r [H|[H|[H|H]]]; try discriminate.
      * injection H as <- <-. assumption.
      * apply IH2. assumption.
Qed.

(** X10.  The worker never filters and never invents a record: in every
    run, whatever the stream, the polls and the flag, the records handled
    are the results of the calls of [pickle.loads] that succeeded, in the
    order of these calls, but for a last one when the logging system
    refused it ([getLogger] or [handle] raised, which ends the loop); and
    each record handled went to the logger named by the record itself, which
    took it. *)
Theorem X10_every_deserialized_payload_is_handled
    (ps : list poll) (sent : bytes) (f : flag) :
  let '(_, (_, w')) := run ps (init sent f) in
  (exists pending,
     flat_map (fun p => match deserialize p with
                        | Some r => [r]
                        | None => []
                        end) (loads_of (trace w'))
     = handled_of (trace w') ++ pending /\
     (pending = [] \/ exists r0, pending = [r0] /\ dispatch r0 = None))
  /\ forall n r, In (Handle n r) (trace w') ->
       record_name r = Some n /\ logger_handle n r = true.
Proof.
  pose proof (run_inv ps (init sent f)) as P.
  destruct (run ps (init sent f)) as [r [ps' w']].
  destruct P as (t & LT & R).
  destruct (loop_trace_handles_all t LT) as ((pending & H1 & H3) & H2).
  assert (K : exists tl, trace w' = t ++ tl /\
                handled_of tl = [] /\ loads_of tl = [] /\
                forall n r0, ~ In (Handle n r0) tl).
  { assert (K2 : forall (n : string) (r0 : LogRecord),
              ~ In (Handle n r0) [Shutdown; Close])
      by (intros n r0 [H|[H|[]]]; discriminate).
    assert (K1 : forall (n : string) (r0 : LogRecord),
              ~ In (Handle n r0) [Close])
      by (intros n r0 [H|[]]; discriminate).
    destruct r as [[]|e|].
    - exists [Shutdown; Close]. simpl in R. repeat split; auto.
    - destruct R as [_ [R|[_ R]]]; simpl in R.
      + exists [Close]. repeat split; auto.
      + exists [Shutdown; Close]. repeat split; auto.
    - exists []. destruct R as [R _]. simpl in R. rewrite app_nil_r.
      repeat split; auto. }
  destruct K as (tl & T & K1 & K2 & K3).
  rewrite T, handled_of_app, loads_of_app, K1, K2, !app_nil_r.
  split; [exists pending; auto|].
  intros n r0 H. apply in_app_or in H. destruct H as [H|H].
  - specialize (H2 n r0 H). unfold Worker.dispatch in H2.
    destruct (record_name r0) as [m|]; [|discriminate].
    destruct (logger_handle m r0) eqn:Hl; [|discriminate].
    injection H2 as ->. auto.
  - destruct (K3 n r0 H).
Qed.

(** X23.  An error of the logging system is not caught: when the next
    frame on the wire carries a record that deserializes but that
    [logging.getLogger] or [Logger.handle] refuses (a record whose [name]
    is not a string, say), [run] raises; nothing is handled for that
    frame, the rest of the wire is never read, and the socket is closed
    and not shut down. *)
Theorem X23_dispatch_failure_ends_worker
    (p rest : bytes) (r : LogRecord) (ps : list poll) (w : worker) :
  _force_shutdown w = None ->
  wire w = frame p ++ rest ->
  p <> [] ->
  (N.of_nat (length p) < 4294967296)%N ->
  deserialize p = Some r ->
  dispatch r = None ->
  4 + length p <= ready_count ps ->
  exists ps',
    run ps w =
      (Raise LoggingError,
       (ps', LoggingWorkerThread rest None
               (trace w ++ [Unpack (Struct.pack_L (N.of_nat (length p)));
                            Loads p; Close]))).
Proof.
  intros Hf Hw Hne Hn Hd Hx Hr.
  destruct (run_loop_frame (length ps) ps w p rest Hf Hw Hne Hn Hr)
    as (ps' & _ & _ & E).
  rewrite Hd, Hx in E. exists ps'. rewrite run_unfold, E.
  unfold log; simpl. rewrite <- app_assoc. reflexivity.
Qed.

(** The bytes consumed by the loop are the frames whose payloads were
    given to [pickle.loads], followed by what was dropped. *)
Lemma run_loop_framing (fuel : nat) :
  forall (ps : list poll) (w : worker),
    length ps < fuel ->
    let '(_, (_, w')) := run_loop fuel ps w in
    exists t tail,
      trace w' = trace w ++ t /\
      wire w = stream (loads_of t) ++ tail ++ wire w'.
Proof.
  induction fuel as [|f IH]; intros ps w Hf; [lia|].
  rewrite run_loop_unfold.
  destruct (read_force w) as [forced w0] eqn:E.
  pose proof (read_force_frame w) as [Hw Ht]. rewrite E in Hw, Ht.
  simpl in Hw, Ht.
  destruct forced.
  { exists [], []. rewrite app_nil_r. simpl. auto. }
  pose proof (recv_loop_post ps 4 [] w0 (Nat.le_0_l 4)) as P1.
  unfold recv_post in P1.
  destruct (recv_loop 4 [] ps w0) as [r1 [ps1 w1]].
  destruct P1 as (T1 & L1 & got1 & G1 & _ & R1).
  assert (Stop1 : exists t tail,
             trace w1 = trace w ++ t /\
             wire w = stream (loads_of t) ++ tail ++ wire w1).
  { exists [], got1. rewrite app_nil_r. simpl. split; congruence. }
  destruct r1 as [b|e|]; [|exact Stop1|exact Stop1].
  destruct R1 as [R1 S1].
  destruct (Nat.eqb_spec (length b) 0) as [Z|NZ]; [exact Stop1|].
  assert (Hb : b = got1 /\ length b = 4).
  { destruct R1 as [[? ?]|[-> _]]; [auto|]. simpl in NZ. lia. }
  destruct Hb as [<- Hb].
  assert (Hps1 : length ps1 < length ps).
  { apply S1; [simpl; lia|]. intros ->. simpl in NZ. lia. }
  destruct (unpack_L_length b Hb) as (n & Hn & _). rewrite Hn.
  destruct (pack_unpack_L b n Hn) as (_ & _ & Hpack).
  pose proof (recv_loop_post ps1 (N.to_nat n) [] (log (Unpack b) w1)
                (Nat.le_0_l _)) as P2.
  unfold recv_post in P2.
  destruct (recv_loop (N.to_nat n) [] ps1 (log (Unpack b) w1))
    as [r2 [ps2 w2]].
  destruct P2 as (T2 & L2 & got2 & G2 & _ & R2).
  simpl in T2, G2.
  assert (Stop2 : exists t tail,
             trace w2 = trace w ++ t /\
             wire w = stream (loads_of t) ++ tail ++ wire w2).
  { exists [Unpack b], (b ++ got2). simpl. rewrite <- app_assoc.
    split; congruence. }
  destruct r2 as [pl|e|]; [|exact Stop2|exact Stop2].
  destruct R2 as [R2 _].
  destruct (Nat.eqb_spec (length pl) 0) as [Z2|NZ2]; [exact Stop2|].
  assert (Hpl : pl = got2 /\ length pl = N.to_nat n).
  { destruct R2 as [[? ?]|[-> _]]; [auto|]. simpl in NZ2. lia. }
  destruct Hpl as [<- Hpl].
  assert (Hframe : frame pl = b ++ pl).
  { unfold frame. rewrite Hpl, N2Nat.id, Hpack. reflexivity. }
  assert (Stop3 : exists t tail,
             trace (log (Loads pl) w2) = trace w ++ t /\
             wire w = stream (loads_of t) ++ tail ++ wire (log (Loads pl) w2)).
  { exists [Unpack b; Loads pl], []. split.
    + simpl. rewrite T2. simpl. rewrite T1, Ht, <- !app_assoc. reflexivity.
    + cbn [loads_of flat_map app stream]. rewrite app_nil_r, Hframe.
      simpl app. rewrite <- !app_assoc, <- G2, <- G1. congruence. }
  destruct (deserialize pl) as [r|]; [|exact Stop3].
  destruct (dispatch r) as [name|]; [|exact Stop3].
  specialize (IH ps2 (log (Handle name r) (log (Loads pl) w2))).
  destruct (run_loop f ps2 (log (Handle name r) (log (Loads pl) w2)))
    as [r3 [ps3 w3]].
  destruct IH as (t & tail & T3 & W3); [lia|].
  simpl in T3, W3.
  exists (Unpack b :: Loads pl :: Handle name r :: t), tail.
  split.
  + rewrite T3, T2. simpl. rewrite T1, Ht, <- !app_assoc. reflexivity.
  + cbn [loads_of flat_map app]. fold (loads_of t).
    cbn [stream flat_map]. fold (stream (loads_of t)).
    rewrite Hframe, <- !app_assoc, <- W3, <- G2, <- G1. congruence.
Qed.

(** X11.  The worker never loses its place in the stream: in every run,
    whatever bytes the peer sends, however they are cut into reads and
    whenever the flag is set, the bytes consumed are the consecutive frames
    of the payloads given to [pickle.loads], from the first byte sent,
    followed by the bytes that were read and dropped. *)
Theorem X11_framing_soundness (ps : list poll) (sent : bytes) (f : flag) :
  let '(_, (_, w')) := run ps (init sent f) in
  exists tail,
    sent = stream (loads_of (trace w')) ++ tail ++ wire w'.
Proof.
  rewrite run_unfold.
  pose proof (run_loop_framing (S (length ps)) ps (init sent f)
                (Nat.lt_succ_diag_r _)) as P.
  destruct (run_loop (S (length ps)) ps (init sent f)) as [r [ps' w']].
  destruct P as (t & tail & T & W). simpl in T, W.
  destruct r as [[]|e|]; exists tail; unfold log; simpl;
    rewrite ?T, ?loads_of_app; simpl; rewrite ?app_nil_r; exact W.
Qed.

(** ** The flag and the polls *)

(** X12.  A worker whose flag is set when [run] starts or comes back to
    the head of its loop leaves at once: it polls nothing, reads nothing
    of what the peer sent, and shuts down and closes the socket; [run]
    returns when [shutdown] returns and raises its [OSError], after the
    close, when it raises. *)
Theorem X12_forced_worker_leaves_at_once (ps : list poll) (w : worker) :
  _force_shutdown w = Some 0 ->
  run ps w = (if socket_shutdown w then Ret tt else Raise OSError,
              (ps, log Close (log Shutdown w))).
Proof.
  intros Hf. rewrite run_unfold, run_loop_unfold, (read_force_set w Hf).
  reflexivity.
Qed.

(** Each poll costs a read of the flag that sees it unset. *)
Lemma recv_loop_budget (ps : list poll) :
  forall (n : nat) (chunk : bytes) (w : worker) (k : nat),
    _force_shutdown w = Some k ->
    let '(_, (ps', w')) := recv_loop n chunk ps w in
    exists k',
      _force_shutdown w' = Some k' /\ length ps + k' <= length ps' + k.
Proof.
  induction ps as [|p ps IH]; intros n chunk w k Hf;
    rewrite recv_loop_unfold; unfold read_force; rewrite Hf;
    destruct k as [|k]; simpl flag_read; cbv iota beta.
  - exists 0. auto.
  - destruct (false || negb (length chunk <? n));
      exists k; (split; [reflexivity|simpl; lia]).
  - exists 0. auto.
  - destruct (false || negb (length chunk <? n)).
    { exists k. split; [reflexivity|simpl; lia]. }
    destruct p as [|j|].
    + specialize (IH n chunk (set_force (Some k) w) k eq_refl).
      destruct (recv_loop n chunk ps (set_force (Some k) w))
        as [r [ps' w']].
      destruct IH as (k' & F & B). exists k'. split; [assumption|simpl; lia].
    + cbv zeta.
      match goal with
      | |- context [if ?c then _ else _] => destruct c
      end.
      * exists k. split; [reflexivity|simpl; lia].
      * match goal with
        | |- context [recv_loop n ?c ps ?w2] =>
            specialize (IH n c w2 k eq_refl);
            destruct (recv_loop n c ps w2) as [r [ps' w']]
        end.
        destruct IH as (k' & F & B). exists k'.
        split; [assumption|simpl; lia].
    + exists k. split; [reflexivity|simpl; lia].
Qed.

Lemma run_loop_budget (f : nat) :
  forall (ps : list poll) (w : worker) (k : nat),
    _force_shutdown w = Some k ->
    let '(_, (ps', _)) := run_loop f ps w in
    length ps <= length ps' + k.
Proof.
  induction f as [|f IH]; intros ps w k Hf; [simpl; lia|].
  rewrite run_loop_unfold. unfold read_force. rewrite Hf.
  destruct k as [|k]; simpl flag_read; cbv iota beta; [lia|].
  pose proof (recv_loop_budget ps 4 [] (set_force (Some k) w) k eq_refl)
    as P1.
  destruct (recv_loop 4 [] ps (set_force (Some k) w)) as [r1 [ps1 w1]].
  destruct P1 as (k1 & F1 & B1).
  destruct r1 as [b|e|]; [|lia|lia].
  destruct (length b =? 0); [lia|].
  destruct (Struct.unpack_L b) as [n|]; [|lia].
  pose proof (recv_loop_budget ps1 (N.to_nat n) [] (log (Unpack b) w1) k1 F1)
    as P2.
  destruct (recv_loop (N.to_nat n) [] ps1 (log (Unpack b) w1))
    as [r2 [ps2 w2]].
  destruct P2 as (k2 & F2 & B2).
  destruct r2 as [pl|e|]; [|lia|lia].
  destruct (length pl =? 0); [lia|].
  destruct (deserialize pl) as [r|]; [|lia].
  destruct (dispatch r) as [name|]; [|lia].
  specialize (IH ps2 (log (Handle name r) (log (Loads pl) w2)) k2 F2).
  destruct (run_loop f ps2 (log (Handle name r) (log (Loads pl) w2)))
    as [r3 [ps3 w3]].
  lia.
Qed.

(** X13.  A request to stop is honoured within a bounded number of polls,
    whatever the peer does.  When the flag is seen set from its [k]-th
    read on, [run] consumes at most [k] polls; and if the script has that
    many polls, [run] has ended (returned or raised) within it. *)
Theorem X13_stop_within_bounded_polls
    (ps : list poll) (w : worker) (k : nat) :
  _force_shutdown w = Some k ->
  let '(r, (ps', _)) := run ps w in
  length ps <= length ps' + k /\
  (k <= length ps -> r <> Wait).
Proof.
  intros Hf.
  pose proof (run_flag ps w k Hf) as Q.
  rewrite run_unfold in *.
  pose proof (run_loop_budget (S (length ps)) ps w k Hf) as B.
  destruct (run_loop (S (length ps)) ps w) as [[[]|e|] [ps' w']];
    simpl in Q; auto.
Qed.

(** X14.  There is no per-connection timeout: with the flag unset, a poll
    that times out changes nothing, so [run] behaves on a script as it
    does on the script without its leading timeouts. *)
Theorem X14_timeout_changes_nothing (n : nat) (ps : list poll) (w : worker) :
  _force_shutdown w = None ->
  run (repeat Timeout n ++ ps) w = run ps w.
Proof.
  intros Hf. induction n as [|n IH]; [reflexivity|].
  simpl repeat. simpl app. rewrite run_idle by assumption. exact IH.
Qed.

(** Idle rounds before the polls of a script change nothing. *)
Lemma run_timeouts (n : nat) (ps : list poll) (w : worker) :
  _force_shutdown w = None ->
  run (repeat Timeout n ++ ps) w = run ps w.
Proof.
  intros Hf. induction n as [|n IH]; [reflexivity|].
  simpl repeat. simpl app. rewrite run_idle by assumption. exact IH.
Qed.

(** Frames of records that the logging system takes, with enough readable
    polls: [run] reads them all, handles their records in order and
    ends. *)
Lemma run_stream_served
    (payloads : list bytes) (records : list LogRecord) (ps : list poll) :
  deserialize [] = None ->
  Forall2 (fun p r => deserialize p = Some r) payloads records ->
  Forall (fun r => dispatch r <> None) records ->
  Forall (fun p => (N.of_nat (length p) < 4294967296)%N) payloads ->
  length (stream payloads) < ready_count ps ->
  let '(r, (_, w')) := run ps (init (stream payloads) None) in
  r <> Wait /\
  handled_of (trace w') = records /\
  loads_of (trace w') = payloads /\
  wire w' = [].
Proof.
  intros He Hd Ha Hn Hr.
  assert (Hlen : length payloads = length records)
    by (eapply Forall2_length; eassumption).
  assert (Hwf : Forall (fun p => p <> [] /\
                          (N.of_nat (length p) < 4294967296)%N) payloads).
  { clear Hlen Ha Hr. induction Hd as [|p r ps0 rs Hp _ IH];
      constructor; inversion Hn; subst; auto.
    split; [|assumption]. intros ->. congruence. }
  destruct (run_loop_stream payloads records Hd Ha (S (length ps)) ps
              (init (stream payloads) None) eq_refl eq_refl Hwf Hr)
    as (ps' & E); [lia|].
  rewrite run_unfold, E. unfold log; simpl.
  rewrite <- !app_assoc, handled_of_app, loads_of_app,
    stream_calls_handled, stream_calls_loads by assumption.
  simpl. rewrite !app_nil_r.
  split; [|auto].
  destruct (socket_shutdown _); discriminate.
Qed.

End WorkerFacts.

(** ** The worker on concrete connections *)

Lemma C1_witness :
  exists ps',
    Sample.run (Sample.eager 5) (Worker.init Sample.bad_then_good None) =
      (Raise UnpicklingError,
       (ps', Worker.LoggingWorkerThread (Worker.frame Sample.good1) None
               [Worker.Unpack (Struct.pack_L 1); Worker.Loads Sample.bad;
                Worker.Close])).
Proof.
  apply (C1_deserialization_failure_ends_worker
           bytes bytes Sample.loads Sample.make Sample.name Sample.handle
           Sample.connected
           Sample.bad (Worker.frame Sample.good1) (Sample.eager 5)
           (Worker.init Sample.bad_then_good None)).
  - reflexivity.
  - reflexivity.
  - discriminate.
  - reflexivity.
  - reflexivity.
  - simpl. lia.
Defined.

(** One malformed payload followed by one well-formed frame: the worker
    raises on the first, the second is never read and no record is
    handled, where the specification promises exactly one. *)
Lemma C1_counterexample :
  Worker.deserialize Sample.loads Sample.make Sample.bad = None /\
  Worker.deserialize Sample.loads Sample.make Sample.good1
    = Some Sample.good1 /\
  let '(r, (_, w')) :=
    Sample.run (Sample.eager 9) (Worker.init Sample.bad_then_good None) in
  r = Raise UnpicklingError /\
  Worker.wire w' = Worker.frame Sample.good1 /\
  Worker.handled_of (Worker.trace w') = [] /\
  Worker.handled_of (Worker.trace w') <> [Sample.good1].
Proof.
  vm_compute. repeat split; discriminate.
Qed.

Lemma C4_witness :
  let '(r, (_, w')) :=
    Sample.run (Sample.eager 5)
      (Worker.init (Worker.stream [Sample.good1; Sample.good2]) None) in
  (exists k,
     Worker.handled_of (Worker.trace w')
     = firstn k [Sample.good1; Sample.good2]) /\
  (Worker.wire w' = [] ->
   Worker.handled_of (Worker.trace w') = [Sample.good1; Sample.good2] /\
   length (Worker.handled_of (Worker.trace w')) = 2) /\
  (r = Ret tt -> Worker.wire w' = []) /\
  (length (Worker.stream [Sample.good1; Sample.good2])
   < Worker.ready_count (Sample.eager 5) ->
   Worker.wire w' = [] /\ r <> Wait).
Proof.
  apply (C4_order_preservation
           bytes bytes Sample.loads Sample.make Sample.name Sample.handle
           Sample.connected
           [Sample.good1; Sample.good2] [Sample.good1; Sample.good2]
           (Sample.eager 5)).
  - reflexivity.
  - repeat constructor.
  - repeat constructor; discriminate.
  - repeat constructor.
Defined.

(** A payload that does not deserialize: the socket is closed but not shut
    down, where the specification promises shutdown then close on every
    exit. *)
Lemma C5_counterexample :
  let '(r, (_, w')) :=
    Sample.run (Sample.eager 9) (Worker.init Sample.bad_then_good None) in
  r = Raise UnpicklingError /\
  Worker.socket_calls_of (Worker.trace w') = [Worker.Close] /\
  Worker.socket_calls_of (Worker.trace w')
    <> [Worker.Shutdown; Worker.Close].
Proof.
  vm_compute. repeat split; discriminate.
Qed.

Lemma C9_witness :
  (forall (ps0 : list Worker.poll) (w0 : Worker.worker bytes),
      Worker._recv_chunk 0 ps0 w0
      = (Ret [], (ps0, snd (Worker.read_force w0)))) /\
  exists ps',
    Sample.run (Sample.eager 9) (Worker.init Sample.empty_then_good None) =
      (Ret tt,
       (ps', Worker.LoggingWorkerThread (Worker.frame Sample.good1) None
               [Worker.Unpack [x00; x00; x00; x00]; Worker.Shutdown;
                Worker.Close])).
Proof.
  apply (C9_empty_payload_ends_loop
           bytes bytes Sample.loads Sample.make Sample.name Sample.handle
           Sample.connected
           [x00; x00; x00; x00] (Worker.frame Sample.good1)
           (Sample.eager 9) (Worker.init Sample.empty_then_good None)).
  - reflexivity.
  - reflexivity.
  - reflexivity.
  - simpl. lia.
Defined.

(** * Facts about the listener *)

Import Server.

Lemma started_of_app (t1 t2 : list action) :
  started_of (t1 ++ t2) = started_of t1 ++ started_of t2.
Proof. apply flat_map_app. Qed.

Lemma ended_of_app (t1 t2 : list action) :
  ended_of (t1 ++ t2) = ended_of t1 ++ ended_of t2.
Proof. apply flat_map_app. Qed.

Lemma forced_of_app (t1 t2 : list action) :
  forced_of (t1 ++ t2) = forced_of t1 ++ forced_of t2.
Proof. apply flat_map_app. Qed.

Lemma joined_of_app (t1 t2 : list action) :
  joined_of (t1 ++ t2) = joined_of t1 ++ joined_of t2.
Proof. apply flat_map_app. Qed.

(** [is_alive] keeps the identity of the thread. *)
Lemma is_alive_tid (t : thread) : tid (snd (is_alive t)) = tid t.
Proof.
  unfold is_alive. destruct (lifetime t) as [[|n]|]; reflexivity.
Qed.

(** What [collect_alive] does: the threads kept are threads of the list, a
    thread of the list is kept or reported dead, and only deaths are
    reported. *)
Lemma collect_alive_spec (wks : list thread) :
  let '(keep, dead) := collect_alive wks in
  (forall i, In i (map tid wks) ->
     In i (map tid keep) \/ In i (ended_of dead)) /\
  started_of dead = [] /\ forced_of dead = [] /\ joined_of dead = [].
Proof.
  induction wks as [|t wks IH]; simpl.
  - repeat split; auto.
  - pose proof (is_alive_tid t) as Ht.
    destruct (is_alive t) as [alive t']. simpl in Ht.
    destruct (collect_alive wks) as [keep dead].
    destruct IH as (I1 & I2 & I3 & I4).
    destruct alive; simpl; (split; [|auto]).
    + intros i [Hi|Hi]; [left; left; congruence|].
      destruct (I1 i Hi); auto.
    + intros i [Hi|Hi]; [right; left; assumption|].
      destruct (I1 i Hi); auto.
Qed.

Lemma reap_spec (s : server) :
  _shutdown_event (reap s) = _shutdown_event s /\
  started_of (trace (reap s)) = started_of (trace s) /\
  forced_of (trace (reap s)) = forced_of (trace s) /\
  joined_of (trace (reap s)) = joined_of (trace s) /\
  (accounted s -> accounted (reap s)).
Proof.
  unfold reap. rewrite map_id.
  pose proof (collect_alive_spec (workers s)) as P.
  destruct (collect_alive (workers s)) as [keep dead].
  destruct P as (P1 & P2 & P3 & P4). simpl.
  rewrite started_of_app, forced_of_app, joined_of_app, P2, P3, P4,
    !app_nil_r.
  repeat split; auto.
  intros A i Hi. simpl in *. rewrite started_of_app, P2, app_nil_r in Hi.
  rewrite ended_of_app.
  destruct (A i Hi) as [H|H].
  - destruct (P1 i H); [left; assumption|right; apply in_or_app; auto].
  - right. apply in_or_app. auto.
Qed.

Lemma spawn_spec (l : option nat) (s : server) :
  _shutdown_event (spawn l s) = _shutdown_event s /\
  forced_of (trace (spawn l s)) = forced_of (trace s) /\
  joined_of (trace (spawn l s)) = joined_of (trace s) /\
  (accounted s -> accounted (spawn l s)).
Proof.
  unfold spawn; simpl.
  rewrite forced_of_app, joined_of_app; simpl. rewrite !app_nil_r.
  repeat split; auto.
  intros A i Hi. simpl in *. rewrite started_of_app in Hi.
  rewrite map_app, ended_of_app. simpl in *. rewrite app_nil_r.
  apply in_app_or in Hi. destruct Hi as [Hi|[Hi|[]]].
  - destruct (A i Hi); [left; apply in_or_app; auto|right; assumption].
  - left. apply in_or_app. right. simpl. auto.
Qed.

Lemma is_set_spec (s : server) :
  let '(b, s') := is_set s in
  workers s' = workers s /\ trace s' = trace s /\
  match _shutdown_event s with
  | None => b = false /\ _shutdown_event s' = None
  | Some 0 => b = true /\ _shutdown_event s' = Some 0
  | Some (S n) => b = false /\ _shutdown_event s' = Some n
  end.
Proof.
  unfold is_set. destruct (_shutdown_event s) as [[|n]|]; simpl; auto.
Qed.

Lemma accept_loop_unfold (ps : list poll) (s : server) :
  accept_loop ps s =
  let (stop, s) := is_set s in
  if stop then (Ret tt, (ps, s))
  else
    match ps with
    | [] => (Wait, ([], s))
    | Timeout :: ps' => accept_loop ps' (reap s)
    | Incoming l :: ps' => accept_loop ps' (reap (spawn l s))
    | Failed :: ps' => (Raise OSError, (ps', s))
    | StartFails :: ps' => (Raise RuntimeError, (ps', s))
    end.
Proof. destruct ps; reflexivity. Qed.

(** The accept loop starts and reaps threads; it never tells a thread to
    stop and never joins one. *)
Lemma accept_loop_spec (ps : list poll) :
  forall s : server,
    let '(_, (_, s')) := accept_loop ps s in
    forced_of (trace s') = forced_of (trace s) /\
    joined_of (trace s') = joined_of (trace s) /\
    (accounted s -> accounted s').
Proof.
  induction ps as [|p ps IH]; intros s; rewrite accept_loop_unfold;
    pose proof (is_set_spec s) as P; destruct (is_set s) as [stop s0];
    destruct P as (W & T & _);
    assert (A0 : accounted s -> accounted s0)
      by (unfold accounted; rewrite W, T; auto);
    rewrite <- T; (destruct stop; [auto|]).
  - auto.
  - destruct p as [|l| |]; [| |auto|auto].
    + specialize (IH (reap s0)).
      destruct (accept_loop ps (reap s0)) as [r [ps' s']].
      destruct (reap_spec s0) as (_ & _ & R3 & R4 & R5).
      destruct IH as (I1 & I2 & I3).
      rewrite I1, I2, R3, R4. repeat split; auto.
    + specialize (IH (reap (spawn l s0))).
      destruct (accept_loop ps (reap (spawn l s0))) as [r [ps' s']].
      destruct (reap_spec (spawn l s0)) as (_ & _ & R3 & R4 & R5).
      destruct (spawn_spec l s0) as (_ & S2 & S3 & S4).
      destruct IH as (I1 & I2 & I3).
      rewrite I1, I2, R3, R4, S2, S3. repeat split; auto.
Qed.

(** Once the event is seen set, the accept loop ends without polling. *)
Lemma accept_loop_stopped (ps : list poll) (s : server) :
  _shutdown_event s = Some 0 -> accept_loop ps s = (Ret tt, (ps, s)).
Proof.
  intros H. rewrite accept_loop_unfold. unfold is_set. rewrite H. simpl.
  destruct s; simpl in *; subst; reflexivity.
Qed.

(** When the event is seen set at the check that follows [n] polls, the
    polls after the first [n] play no role. *)
Lemma accept_loop_firstn (ps : list poll) :
  forall (n : nat) (s : server),
    _shutdown_event s = Some n ->
    fst (accept_loop (firstn n ps) s) = fst (accept_loop ps s) /\
    snd (snd (accept_loop (firstn n ps) s)) = snd (snd (accept_loop ps s)).
Proof.
  induction ps as [|p ps IH]; intros n s H.
  - rewrite firstn_nil. auto.
  - destruct n as [|n].
    + rewrite !accept_loop_stopped by assumption. auto.
    + simpl firstn. rewrite !accept_loop_unfold.
      pose proof (is_set_spec s) as P. destruct (is_set s) as [stop s0].
      rewrite H in P. destruct P as (_ & _ & -> & F).
      destruct p as [|l| |]; [| |auto|auto].
      * apply IH. destruct (reap_spec s0) as (R1 & _). congruence.
      * apply IH. destruct (reap_spec (spawn l s0)) as (R1 & _).
        destruct (spawn_spec l s0) as (S1 & _). congruence.
Qed.

Lemma force_all_spec (s : server) :
  started_of (trace (force_all s)) = started_of (trace s) /\
  joined_of (trace (force_all s)) = joined_of (trace s) /\
  Forall (fun t => terminates t = true) (workers (force_all s)) /\
  (accounted s -> accounted (force_all s)).
Proof.
  unfold force_all; simpl.
  assert (E : forall l : list thread,
            started_of (map (fun t => Forced (tid t)) l) = [] /\
            joined_of (map (fun t => Forced (tid t)) l) = [] /\
            ended_of (map (fun t => Forced (tid t)) l) = []).
  { induction l; simpl; auto. }
  destruct (E (workers s)) as (E1 & E2 & E3).
  rewrite started_of_app, joined_of_app, E1, E2, !app_nil_r.
  repeat split; auto.
  - apply Forall_forall. intros t Ht. apply in_map_iff in Ht.
    destruct Ht as (t0 & <- & _). reflexivity.
  - intros A i Hi. simpl in *.
    rewrite started_of_app, E1, app_nil_r in Hi.
    rewrite ended_of_app, E3, app_nil_r, map_map. simpl.
    exact (A i Hi).
Qed.

Lemma drain_loop_unfold (ws : list bool) (s : server) :
  drain_loop ws s =
  match workers s with
  | [] => (Ret tt, (ws, s))
  | _ :: _ =>
      match ws with
      | [] => (Wait, ([], s))
      | true :: ws' => (Ret tt, (ws', force_all s))
      | false :: ws' => drain_loop ws' (reap s)
      end
  end.
Proof. destruct ws; reflexivity. Qed.

(** The drain loop starts and joins nothing and never raises.  When it
    ends, the threads left in [workers] have all been told to stop; when no
    forced shutdown is requested it tells no thread to stop and ends only
    with [workers] empty. *)
Lemma drain_loop_spec (ws : list bool) :
  forall s : server,
    let '(r, (_, s')) := drain_loop ws s in
    started_of (trace s') = started_of (trace s) /\
    joined_of (trace s') = joined_of (trace s) /\
    (accounted s -> accounted s') /\
    (forall e, r <> Raise e) /\
    (r = Ret tt -> Forall (fun t => terminates t = true) (workers s')) /\
    (Forall (eq false) ws ->
       forced_of (trace s') = forced_of (trace s) /\
       (r = Ret tt -> workers s' = [])).
Proof.
  induction ws as [|b ws IH]; intros s; rewrite drain_loop_unfold;
    destruct (workers s) as [|t wks] eqn:W.
  - rewrite W. repeat split; auto; discriminate.
  - repeat split; auto; discriminate.
  - rewrite W. repeat split; auto; discriminate.
  - destruct b.
    + destruct (force_all_spec s) as (F1 & F2 & F3 & F4).
      repeat split; auto; try discriminate;
        inversion H; discriminate.
    + specialize (IH (reap s)).
      destruct (drain_loop ws (reap s)) as [r [ws' s']].
      destruct (reap_spec s) as (_ & R2 & R3 & R4 & R5).
      destruct IH as (I1 & I2 & I3 & I4 & I5 & I6).
      rewrite I1, I2, R2, R4.
      repeat split; auto.
      * inversion H; subst. destruct (I6 H3) as (I7 & _). congruence.
      * inversion H; subst. destruct (I6 H3) as (_ & I8). auto.
Qed.

(** The final joins: when they all return, every thread of the list has
    ended. *)
Lemma join_all_spec (wks : list thread) :
  forall s : server,
    let '(r, s') := join_all wks s in
    workers s' = workers s /\
    started_of (trace s') = started_of (trace s) /\
    forced_of (trace s') = forced_of (trace s) /\
    (forall i, In i (ended_of (trace s)) -> In i (ended_of (trace s'))) /\
    (forall e, r <> Raise e) /\
    (r = Ret tt ->
       forall i, In i (map tid wks) -> In i (ended_of (trace s'))) /\
    (Forall (fun t => terminates t = true) wks -> r = Ret tt).
Proof.
  induction wks as [|t wks IH]; intros s; simpl.
  - repeat split; auto; try discriminate. intros _ i [].
  - destruct (terminates t) eqn:Tm.
    + specialize (IH (log [Joined (tid t)] s)).
      destruct (join_all wks (log [Joined (tid t)] s)) as [r s'].
      destruct IH as (I1 & I2 & I3 & I4 & I5 & I6 & I7).
      simpl in I1, I2, I3, I4.
      rewrite started_of_app in I2. rewrite forced_of_app in I3.
      simpl in I2, I3. rewrite app_nil_r in I2, I3.
      assert (J : In (tid t) (ended_of (trace s'))).
      { apply I4. rewrite ended_of_app. apply in_or_app. right.
        simpl. auto. }
      repeat split; auto.
      * intros i Hi. apply I4. rewrite ended_of_app. apply in_or_app. auto.
      * intros Hr i [Hi|Hi]; [subst; assumption|auto].
      * intros Hall. inversion Hall; subst. auto.
    + repeat split; auto; try discriminate.
      intros Hall. inversion Hall; subst. congruence.
Qed.

Lemma run_up (ps : list poll) (ws : list bool) (s : server) :
  run Up ps ws s = serve ps ws s.
Proof. reflexivity. Qed.

Lemma run_unfold_server (ps : list poll) (ws : list bool) (s : server) :
  serve ps ws s =
  match accept_loop ps s with
  | (Ret _, (_, s1)) =>
      match drain_loop ws s1 with
      | (Ret _, (_, s2)) =>
          match join_all (workers s2) s2 with
          | (Ret _, s3) => (Ret tt, log [Closed] s3)
          | (Raise e, s3) => (Raise e, log [Closed] s3)
          | (Wait, s3) => (Wait, s3)
          end
      | (Raise e, (_, s2)) => (Raise e, log [Closed] s2)
      | (Wait, (_, s2)) => (Wait, s2)
      end
  | (Raise e, (_, s1)) => (Raise e, log [Closed] s1)
  | (Wait, (_, s1)) => (Wait, s1)
  end.
Proof.
  unfold serve, body.
  destruct (accept_loop ps s) as [[[]|e|] [ps1 s1]]; try reflexivity.
  destruct (drain_loop ws s1) as [[[]|e|] [ws2 s2]]; try reflexivity.
  destruct (join_all (workers s2) s2) as [[[]|e|] s3]; reflexivity.
Qed.

Lemma log_closed_spec (s : server) :
  workers (log [Closed] s) = workers s /\
  started_of (trace (log [Closed] s)) = started_of (trace s) /\
  ended_of (trace (log [Closed] s)) = ended_of (trace s) /\
  forced_of (trace (log [Closed] s)) = forced_of (trace s) /\
  joined_of (trace (log [Closed] s)) = joined_of (trace s).
Proof.
  unfold log; simpl.
  rewrite started_of_app, ended_of_app, forced_of_app, joined_of_app.
  simpl. rewrite !app_nil_r. auto.
Qed.

(** What [run] guarantees about the threads it started. *)
Lemma run_spec (ps : list poll) (ws : list bool) (s : server) :
  accounted s ->
  let '(r, s') := run Up ps ws s in
  (r = Ret tt ->
     forall i, In i (started_of (trace s')) -> In i (ended_of (trace s')))
  /\
  (Forall (eq false) ws ->
     forced_of (trace s') = forced_of (trace s) /\
     (r = Ret tt -> workers s' = [])).
Proof.
  intros A. rewrite run_up, run_unfold_server.
  pose proof (accept_loop_spec ps s) as P1.
  destruct (accept_loop ps s) as [r1 [ps1 s1]].
  destruct P1 as (F1 & J1 & A1).
  destruct r1 as [[]|e|].
  2:{ destruct (log_closed_spec s1) as (_ & _ & _ & C4 & _).
      split; [discriminate|]. intros _. split; [congruence|discriminate]. }
  2:{ split; [discriminate|]. intros _. split; [congruence|discriminate]. }
  pose proof (drain_loop_spec ws s1) as P2.
  destruct (drain_loop ws s1) as [r2 [ws2 s2]].
  destruct P2 as (S2 & J2 & A2 & N2 & T2 & NF2).
  destruct r2 as [[]|e|].
  2:{ destruct (N2 e). reflexivity. }
  2:{ split; [discriminate|]. intros Hws. destruct (NF2 Hws) as (F2 & _).
      split; [congruence|discriminate]. }
  pose proof (join_all_spec (workers s2) s2) as P3.
  destruct (join_all (workers s2) s2) as [r3 s3].
  destruct P3 as (W3 & S3 & F3 & M3 & N3 & E3 & _).
  destruct r3 as [[]|e|].
  2:{ destruct (N3 e). reflexivity. }
  2:{ split; [discriminate|]. intros Hws. destruct (NF2 Hws) as (F2 & _).
      split; [congruence|discriminate]. }
  destruct (log_closed_spec s3) as (C1 & C2 & C3 & C4 & _).
  split.
  - intros _ i Hi. rewrite C2, S3 in Hi. rewrite C3.
    destruct (A2 (A1 A) i Hi) as [H|H]; [apply E3; auto|apply M3; auto].
  - intros Hws. destruct (NF2 Hws) as (F2 & E2).
    split; [congruence|]. intros _. rewrite C1, W3. auto.
Qed.

(** After a forced shutdown has been requested and seen, [run] tells every
    thread left to stop, joins them all and returns. *)
Lemma run_forced_returns (ps : list poll) (ws : list bool) (s : server) :
  _shutdown_event s = Some 0 ->
  exists s',
    run Up ps (true :: ws) s = (Ret tt, s') /\
    forall i, In i (map tid (workers s)) ->
      In i (forced_of (trace s')) /\ In i (joined_of (trace s')).
Proof.
  intros H.
  rewrite run_up, run_unfold_server, accept_loop_stopped by assumption.
  rewrite drain_loop_unfold.
  assert (J : forall (wks : list thread) (s0 : server),
            Forall (fun t => terminates t = true) wks ->
            exists s1, join_all wks s0 = (Ret tt, s1) /\
              forced_of (trace s1) = forced_of (trace s0) /\
              joined_of (trace s1) = joined_of (trace s0) ++ map tid wks).
  { induction wks as [|t wks IH]; intros s0 Hall; simpl.
    - exists s0. rewrite app_nil_r. auto.
    - inversion Hall as [|? ? Ht Hall']; subst. rewrite Ht.
      destruct (IH (log [Joined (tid t)] s0) Hall') as (s1 & E & F & Jn).
      exists s1. split; [assumption|]. simpl in F, Jn.
      rewrite forced_of_app in F. rewrite joined_of_app in Jn.
      simpl in F, Jn. rewrite app_nil_r in F. rewrite <- app_assoc in Jn.
      auto. }
  destruct (workers s) as [|t wks] eqn:W.
  - simpl. rewrite W. simpl. eexists. split; [reflexivity|]. intros i [].
  - destruct (force_all_spec s) as (_ & _ & Hall & _).
    destruct (J (workers (force_all s)) (force_all s) Hall)
      as (s1 & E & F & Jn).
    rewrite E. eexists. split; [reflexivity|].
    destruct (log_closed_spec s1) as (_ & _ & _ & C4 & C5).
    rewrite C4, C5, F, Jn. unfold force_all; simpl.
    rewrite W, forced_of_app, map_map. simpl map.
    assert (Fm : forall l : list thread,
              forced_of (map (fun t => Forced (tid t)) l) = map tid l).
    { induction l; simpl; congruence. }
    intros i Hi. split; apply in_or_app; right.
    + change (In i (forced_of (map (fun t => Forced (tid t)) (t :: wks)))).
      rewrite Fm. assumption.
    + assumption.
Qed.

(** What a startup failure leaves: the trace of the process, with the
    close of the socket when [bind] or [listen] failed. *)
Lemma run_down (st : startup) (ps : list poll) (ws : list bool) (s : server) :
  st <> Up ->
  exists e, (run st ps ws s = (Raise e, s)
             \/ run st ps ws s = (Raise e, log [Closed] s)).
Proof.
  destruct st; intros H; [congruence| | |]; eexists; simpl; eauto.
Qed.

(** C7 (as amended).  Graceful shutdown.  (1) Once [_shutdown_event] is
    seen set the accept loop polls no more: when the event is seen at the
    check that follows [n] polls, the polls after these [n] play no role,
    and when it is seen at the first check no thread is started.  (2) While
    no forced shutdown is requested [run] tells no worker to stop.  (3) A
    worker whose flag stays unset and whose connection is idle keeps
    waiting with its socket untouched, and ends, with shutdown and close,
    when its client closes.  (4) Such a worker goes on processing: frames
    that arrive after any number of idle rounds are read and their records
    handled, in order, as soon as enough polls report the socket readable.
    (5) When [run] returns, every thread it started has ended (reaped or
    joined without timeout), and when no forced shutdown was requested it
    returns only with [workers] empty. *)
Theorem C7_graceful_shutdown :
  (forall (st : startup) (n : nat) (ps : list poll) (ws : list bool)
          (s : server),
      _shutdown_event s = Some n ->
      run st ps ws s = run st (firstn n ps) ws s)
  /\
  (forall (st : startup) (ps : list poll) (ws : list bool) (s : server),
      started_of (trace (snd (run st ps ws (shutdown s))))
      = started_of (trace s))
  /\
  (forall (st : startup) (ps : list poll) (ws : list bool) (f : flag),
      Forall (eq false) ws ->
      forced_of (trace (snd (run st ps ws (init f)))) = [])
  /\
  (forall (obj LogRecord : Type) (pickle_loads : bytes -> option obj)
          (makeLogRecord : obj -> option LogRecord)
          (record_name : LogRecord -> option string)
          (logger_handle : string -> LogRecord -> bool)
          (socket_shutdown : Worker.worker LogRecord -> bool)
          (n k : nat) (ps : list Worker.poll)
          (w : Worker.worker LogRecord),
      Worker._force_shutdown w = None ->
      Worker.wire w = [] ->
      Worker.run pickle_loads makeLogRecord record_name logger_handle
        socket_shutdown (repeat Worker.Timeout n) w = (Wait, ([], w))
      /\
      Worker.run pickle_loads makeLogRecord record_name logger_handle
        socket_shutdown (repeat Worker.Timeout n ++ Worker.Readable k :: ps) w
      = (if socket_shutdown w then Ret tt else Raise OSError,
         (ps, Worker.log Worker.Close (Worker.log Worker.Shutdown w))))
  /\
  (forall (obj LogRecord : Type) (pickle_loads : bytes -> option obj)
          (makeLogRecord : obj -> option LogRecord)
          (record_name : LogRecord -> option string)
          (logger_handle : string -> LogRecord -> bool)
          (socket_shutdown : Worker.worker LogRecord -> bool)
          (n : nat) (payloads : list bytes) (records : list LogRecord)
          (ps : list Worker.poll),
      Worker.deserialize pickle_loads makeLogRecord [] = None ->
      Forall2 (fun p r =>
                 Worker.deserialize pickle_loads makeLogRecord p = Some r)
        payloads records ->
      Forall (fun r => Worker.dispatch record_name logger_handle r <> None)
        records ->
      Forall (fun p => (N.of_nat (length p) < 4294967296)%N) payloads ->
      length (Worker.stream payloads) < Worker.ready_count ps ->
      let '(r, (_, w')) :=
        Worker.run pickle_loads makeLogRecord record_name logger_handle
          socket_shutdown (repeat Worker.Timeout n ++ ps)
          (Worker.init (Worker.stream payloads) None) in
      r <> Wait /\
      Worker.handled_of (Worker.trace w') = records /\
      Worker.loads_of (Worker.trace w') = payloads /\
      Worker.wire w' = [])
  /\
  (forall (st : startup) (ps : list poll) (ws : list bool) (f : flag)
          (s' : server),
      run st ps ws (init f) = (Ret tt, s') ->
      (forall i, In i (started_of (trace s')) -> In i (ended_of (trace s')))
      /\ (Forall (eq false) ws -> workers s' = [])).
Proof.
  split; [|split; [|split; [|split; [|split]]]].
  - intros st n ps ws s H. destruct st; try reflexivity.
    rewrite !run_up, !run_unfold_server.
    destruct (accept_loop_firstn ps n s H) as (E1 & E2).
    destruct (accept_loop ps s) as [r1 [ps1 s1]].
    destruct (accept_loop (firstn n ps) s) as [r1' [ps1' s1']].
    simpl in E1, E2. subst. reflexivity.
  - intros st ps ws s. destruct st; try reflexivity.
    2:{ simpl. rewrite started_of_app. simpl. apply app_nil_r. }
    rewrite run_up, run_unfold_server.
    rewrite accept_loop_stopped by reflexivity.
    pose proof (drain_loop_spec ws (shutdown s)) as P2.
    destruct (drain_loop ws (shutdown s)) as [r2 [ws2 s2]].
    destruct P2 as (S2 & _ & _ & N2 & _). simpl in S2.
    destruct r2 as [[]|e|]; [|destruct (N2 e); reflexivity|exact S2].
    pose proof (join_all_spec (workers s2) s2) as P3.
    destruct (join_all (workers s2) s2) as [r3 s3].
    destruct P3 as (_ & S3 & _ & _ & N3 & _).
    destruct r3 as [[]|e|]; [|destruct (N3 e); reflexivity|simpl; congruence].
    destruct (log_closed_spec s3) as (_ & C2 & _). cbn [snd]. congruence.
  - intros st ps ws f Hws. destruct st; try reflexivity.
    assert (A : accounted (init f)) by (intros i []).
    pose proof (run_spec ps ws (init f) A) as P.
    destruct (run Up ps ws (init f)) as [r s'].
    destruct P as (_ & P). destruct (P Hws) as (F & _). exact F.
  - intros obj LogRecord pickle_loads makeLogRecord record_name
      logger_handle socket_shutdown n k ps w Hf Hw.
    split.
    + apply run_waits. assumption.
    + apply run_idle_then_closed; assumption.
  - intros obj LogRecord pickle_loads makeLogRecord record_name
      logger_handle socket_shutdown n payloads records ps He Hd Ha Hn Hr.
    rewrite run_timeouts by reflexivity.
    apply run_stream_served; assumption.
  - intros st ps ws f s' E. destruct st; try discriminate.
    assert (A : accounted (init f)) by (intros i []).
    pose proof (run_spec ps ws (init f) A) as P. rewrite E in P.
    destruct P as (P1 & P2). split; [auto|].
    intros Hws. destruct (P2 Hws) as (_ & P3). auto.
Qed.

(** C8 (as amended).  An error raised in the accept loop is not caught:
    [run] raises it.  All that [run] still does is close the listening
    socket: the drain loop and the final joins are skipped, so no thread is
    told to stop or joined, and the threads in [workers] at the time of the
    error are left as they are. *)
Theorem C8_accept_error_propagates
    (ps : list poll) (ws : list bool) (s : server)
    (e : exn) (ps' : list poll) (s1 : server) :
  accept_loop ps s = (Raise e, (ps', s1)) ->
  run Up ps ws s = (Raise e, log [Closed] s1) /\
  trace (log [Closed] s1) = trace s1 ++ [Closed] /\
  workers (log [Closed] s1) = workers s1 /\
  forced_of (trace (log [Closed] s1)) = forced_of (trace s) /\
  joined_of (trace (log [Closed] s1)) = joined_of (trace s).
Proof.
  intros E. rewrite run_up, run_unfold_server, E.
  pose proof (accept_loop_spec ps s) as P. rewrite E in P.
  destruct P as (F & J & _).
  destruct (log_closed_spec s1) as (_ & _ & _ & C4 & C5).
  repeat split; congruence.
Qed.

(** ** The listener on concrete scripts *)

Lemma C7_witness :
  run Up Sample.two_clients [false; false; false] (init (Some 2))
  = run Up (firstn 2 Sample.two_clients) [false; false; false]
      (init (Some 2))
  /\
  (let '(r, (_, w')) :=
     Sample.run (repeat Worker.Timeout 3 ++ Sample.eager 14)
       (Worker.init (Worker.stream [Sample.good1; Sample.good2]) None) in
   r <> Wait /\
   Worker.handled_of (Worker.trace w') = [Sample.good1; Sample.good2] /\
   Worker.loads_of (Worker.trace w') = [Sample.good1; Sample.good2] /\
   Worker.wire w' = [])
  /\
  (forall i,
      In i (started_of (trace (snd
         (run Up Sample.two_clients [false; false; false] (init (Some 2))))))
      -> In i (ended_of (trace (snd
         (run Up Sample.two_clients [false; false; false]
            (init (Some 2)))))))
  /\
  workers (snd (run Up Sample.two_clients [false; false; false]
                  (init (Some 2)))) = [].
Proof.
  destruct C7_graceful_shutdown as (H1 & _ & _ & _ & H4 & H5).
  split; [apply H1; reflexivity|].
  split.
  { apply (H4 bytes bytes Sample.loads Sample.make Sample.name Sample.handle
             Sample.connected 3 [Sample.good1; Sample.good2]
             [Sample.good1; Sample.good2] (Sample.eager 14)).
    - reflexivity.
    - repeat constructor.
    - repeat constructor; discriminate.
    - repeat constructor.
    - vm_compute. lia. }
  destruct (H5 Up Sample.two_clients [false; false; false] (Some 2)
              (snd (run Up Sample.two_clients [false; false; false]
                      (init (Some 2)))) eq_refl) as (A & B).
  split; [exact A|]. apply B. repeat constructor.
Defined.

(** [shutdown] is called while the first [select] is in progress, so that
    the event is seen at the second check only: the connection that comes
    in during this [select] is accepted and a worker is started for it,
    where the specification has no connection accepted after [shutdown]. *)
Lemma C7_counterexample :
  let '(r, s') := run Up [Incoming None] [false] (init (Some 1)) in
  trace s' = [Started 0] /\
  started_of (trace s') = [0] /\
  started_of (trace s') <> [].
Proof.
  vm_compute. repeat split; discriminate.
Qed.

Lemma C8_witness :
  run Up Sample.accept_fails [true] (init None)
  = (Raise OSError,
     LoggingServer None [Thread 0 None false] 1 [Started 0; Closed])
  /\
  [Started 0; Closed] = [Started 0] ++ [Closed] /\
  [Thread 0 None false] = [Thread 0 None false] /\
  forced_of [Started 0; Closed] = [] /\
  joined_of [Started 0; Closed] = [].
Proof.
  apply (C8_accept_error_propagates Sample.accept_fails [true] (init None)
           OSError [] (LoggingServer None [Thread 0 None false] 1 [Started 0])).
  reflexivity.
Defined.

(** [accept] fails while a worker is running and a forced shutdown is
    pending: [run] raises, and the thread it started is neither told to
    stop nor joined and has not ended, where the specification promises the
    drain/stop sequence. *)
Lemma C8_counterexample :
  let '(r, s') := run Up Sample.accept_fails [true] (init None) in
  r = Raise OSError /\
  started_of (trace s') = [0] /\
  forced_of (trace s') = [] /\
  ended_of (trace s') = [] /\
  ended_of (trace s') <> started_of (trace s').
Proof.
  vm_compute. repeat split; discriminate.
Qed.

(** * Further facts about the listener *)

(** X15.  Forced shutdown.  Once both events are set and the first is
    seen, [run] accepts nothing more, tells every thread left in [workers]
    to stop, joins each of them and returns: it does not wait for any
    client. *)
Theorem X15_forced_shutdown_returns
    (ps : list poll) (ws : list bool) (s : server) :
  _shutdown_event s = Some 0 ->
  exists s',
    run Up ps (true :: ws) s = (Ret tt, s') /\
    forall i, In i (map tid (workers s)) ->
      In i (forced_of (trace s')) /\ In i (joined_of (trace s')).
Proof. apply run_forced_returns. Qed.

(** X16.  [shutdown] before [start].  When the configuration is applied
    and the socket listens, the process closes its listening socket and
    returns without polling, accepting or starting anything, whatever
    connections are pending.  When [bind] or [listen] raises, the process
    closes the socket and raises; when [dictConfig] or [socket()] raises,
    it raises with nothing to close. *)
Theorem X16_shutdown_before_start
    (ps : list poll) (ws : list bool) (f : flag) :
  run Up ps ws (shutdown (init f))
  = (Ret tt, LoggingServer (Some 0) [] 0 [Closed]) /\
  run BindFails ps ws (shutdown (init f))
  = (Raise OSError, LoggingServer (Some 0) [] 0 [Closed]) /\
  run SocketFails ps ws (shutdown (init f))
  = (Raise OSError, LoggingServer (Some 0) [] 0 []) /\
  run ConfigFails ps ws (shutdown (init f))
  = (Raise ConfigError, LoggingServer (Some 0) [] 0 []).
Proof.
  split; [|repeat split].
  rewrite run_up, run_unfold_server, accept_loop_stopped by reflexivity.
  rewrite drain_loop_unfold. reflexivity.
Qed.

(** Threads whose clients close within [k] rounds. *)
Lemma collect_alive_bound (k : nat) (wks : list thread) :
  Forall (fun t => exists l, lifetime t = Some l /\ l <= S k) wks ->
  Forall (fun t => exists l, lifetime t = Some l /\ l <= k)
    (fst (collect_alive wks)).
Proof.
  induction 1 as [|t wks (l & Hl & Hk) _ IH]; simpl; [constructor|].
  unfold is_alive. rewrite Hl.
  destruct (collect_alive wks) as [keep dead]. simpl in IH.
  destruct l as [|l]; simpl; [assumption|].
  constructor; [|assumption]. exists l. simpl. split; [reflexivity|lia].
Qed.

Lemma collect_alive_none (wks : list thread) :
  Forall (fun t => exists l, lifetime t = Some l /\ l <= 0) wks ->
  fst (collect_alive wks) = [].
Proof.
  induction 1 as [|t wks (l & Hl & Hk) _ IH]; simpl; [reflexivity|].
  unfold is_alive. rewrite Hl.
  destruct (collect_alive wks) as [keep dead]. simpl in IH.
  destruct l as [|l]; [assumption|lia].
Qed.

Lemma reap_workers (s : server) :
  workers (reap s) = fst (collect_alive (workers s)) /\
  (forall i, In i (ended_of (trace s)) -> In i (ended_of (trace (reap s))))
  /\
  (forall i, In i (map tid (workers s)) ->
     In i (map tid (workers (reap s))) \/ In i (ended_of (trace (reap s)))).
Proof.
  unfold reap. rewrite map_id.
  pose proof (collect_alive_spec (workers s)) as P.
  destruct (collect_alive (workers s)) as [keep dead].
  destruct P as (P1 & _). simpl. rewrite ended_of_app.
  repeat split.
  - intros i Hi. apply in_or_app. auto.
  - intros i Hi. destruct (P1 i Hi); [left; assumption|].
    right. apply in_or_app. auto.
Qed.

Lemma drain_loop_completes (k : nat) :
  forall (ws : list bool) (s : server),
    Forall (fun t => exists l, lifetime t = Some l /\ l <= k) (workers s) ->
    exists ws' s',
      drain_loop (repeat false (S k) ++ ws) s = (Ret tt, (ws', s')) /\
      workers s' = [] /\
      forced_of (trace s') = forced_of (trace s) /\
      joined_of (trace s') = joined_of (trace s) /\
      (forall i, In i (ended_of (trace s)) -> In i (ended_of (trace s'))) /\
      (forall i, In i (map tid (workers s)) -> In i (ended_of (trace s'))).
Proof.
  induction k as [|k IH]; intros ws s Hb; simpl repeat; simpl app;
    rewrite drain_loop_unfold;
    destruct (workers s) as [|t wks] eqn:W.
  - eexists; exists s. rewrite W.
    repeat split; auto. intros i [].
  - destruct (reap_workers s) as (R1 & R2 & R3).
    destruct (reap_spec s) as (_ & _ & F & J & _).
    rewrite W in R1, R3. rewrite (collect_alive_none _ Hb) in R1.
    exists ws, (reap s). rewrite drain_loop_unfold, R1.
    repeat split; auto.
    intros i Hi. destruct (R3 i Hi) as [H|H]; [|assumption].
    rewrite R1 in H. destruct H.
  - eexists; exists s. rewrite W.
    repeat split; auto. intros i [].
  - destruct (reap_workers s) as (R1 & R2 & R3).
    destruct (reap_spec s) as (_ & _ & F & J & _).
    rewrite W in R1, R3.
    assert (Hb' : Forall (fun t => exists l, lifetime t = Some l /\ l <= k)
                    (workers (reap s))).
    { rewrite R1. apply collect_alive_bound. assumption. }
    destruct (IH ws (reap s) Hb') as (ws' & s' & E & W' & F' & J' & M & D).
    exists ws', s'. simpl repeat in E. simpl app in E.
    repeat split; auto; try congruence.
    intros i Hi. destruct (R3 i Hi) as [H|H]; auto.
Qed.

(** X17.  Graceful shutdown completes when the clients close.  Once the
    shutdown event is seen, if every thread in [workers] ends by itself
    within [k] rounds and no forced shutdown is requested during [k + 1]
    rounds, [run] returns with [workers] empty; every one of these threads
    was reaped, none was told to stop and none had to be joined. *)
Theorem X17_graceful_drain_completes
    (k : nat) (ps : list poll) (ws : list bool) (s : server) :
  _shutdown_event s = Some 0 ->
  Forall (fun t => exists l, lifetime t = Some l /\ l <= k) (workers s) ->
  exists s',
    run Up ps (repeat false (S k) ++ ws) s = (Ret tt, s') /\
    workers s' = [] /\
    forced_of (trace s') = forced_of (trace s) /\
    joined_of (trace s') = joined_of (trace s) /\
    (forall i, In i (map tid (workers s)) -> In i (ended_of (trace s'))).
Proof.
  intros H Hb.
  destruct (drain_loop_completes k ws s Hb)
    as (ws' & s' & E & W & F & J & _ & D).
  rewrite run_up, run_unfold_server, accept_loop_stopped by assumption.
  rewrite E, W. simpl join_all.
  destruct (log_closed_spec s') as (C1 & _ & C3 & C4 & C5).
  exists (log [Closed] s'). split; [reflexivity|].
  rewrite C1, C3, C4, C5. auto.
Qed.



Lemma accept_loop_running (ps : list poll) :
  forall s : server,
    _shutdown_event s = None ->
    ~ In Failed ps ->
    ~ In StartFails ps ->
    exists s',
      accept_loop ps s = (Wait, ([], s')) /\
      length (started_of (trace s'))
      = length (started_of (trace s))
        + length (filter (fun p => match p with
                                   | Incoming _ => true
                                   | _ => false
                                   end) ps).
Proof.
  induction ps as [|p ps IH]; intros s H NF NS; rewrite accept_loop_unfold;
    pose proof (is_set_spec s) as P; destruct (is_set s) as [stop s0];
    rewrite H in P; destruct P as (_ & T & -> & H0).
  - exists s0. simpl. rewrite T. auto.
  - destruct p as [|l| |].
    + destruct (reap_spec s0) as (R1 & R2 & _).
      destruct (IH (reap s0)) as (s' & E & C);
        [congruence|intros F; apply NF; right; assumption
        |intros F; apply NS; right; assumption|].
      exists s'. split; [assumption|]. simpl. rewrite C, R2, T. reflexivity.
    + destruct (reap_spec (spawn l s0)) as (R1 & R2 & _).
      destruct (spawn_spec l s0) as (S1 & _).
      destruct (IH (reap (spawn l s0))) as (s' & E & C);
        [congruence|intros F; apply NF; right; assumption
        |intros F; apply NS; right; assumption|].
      exists s'. split; [assumption|]. simpl. rewrite C, R2.
      unfold spawn; simpl. rewrite started_of_app, length_app, T. simpl. lia.
    + destruct NF. left. reflexivity.
    + destruct NS. left. reflexivity.
Qed.

(** X19.  The listener never stops by itself: once the socket listens, as
    long as [shutdown] is not called and no [select], [accept] or
    [wk.start()] fails, [run] keeps polling (it is still in its accept loop
    at the end of any script); it has started one worker per incoming
    connection and has told none to stop. *)
Theorem X19_listener_keeps_accepting
    (ps : list poll) (ws : list bool) (s : server) :
  _shutdown_event s = None ->
  ~ In Failed ps ->
  ~ In StartFails ps ->
  exists s',
    run Up ps ws s = (Wait, s') /\
    length (started_of (trace s'))
    = length (started_of (trace s))
      + length (filter (fun p => match p with
                                 | Incoming _ => true
                                 | _ => false
                                 end) ps) /\
    forced_of (trace s') = forced_of (trace s).
Proof.
  intros H NF NS.
  destruct (accept_loop_running ps s H NF NS) as (s' & E & C).
  pose proof (accept_loop_spec ps s) as P. rewrite E in P.
  destruct P as (F & _ & _).
  exists s'. rewrite run_up, run_unfold_server, E. auto.
Qed.

(** * Facts about the sample program *)

Lemma recognised_iff (cmd : string) :
  Main.recognised cmd = true <-> cmd = "stop"%string \/ cmd = "force"%string.
Proof.
  unfold Main.recognised. simpl. rewrite !orb_true_iff, !String.eqb_eq.
  intuition discriminate.
Qed.

Lemma wait_server_joins (alive : list bool) :
  forall c, In c (snd (Main.wait_server alive)) -> c = Main.Join (Some 10).
Proof.
  induction alive as [|[|] alive IH]; simpl; try (intros c []).
  destruct (Main.wait_server alive) as [e calls]. simpl in *.
  intros c [<-|H]; auto.
Qed.

(** X20.  The program reads lines until the first that is [stop] or
    [force]: the lines before it are ignored and the lines after it are
    not read.  It then calls [shutdown] exactly once, with [force] set
    exactly when that line is [force]; every other call after [start] is a
    [join]. *)
Theorem X20_first_command_decides
    (junk rest : list string) (cmd : string) (alive : list bool) :
  Forall (fun c => c <> "stop"%string /\ c <> "force"%string) junk ->
  cmd = "stop"%string \/ cmd = "force"%string ->
  Main.read_command (junk ++ cmd :: rest) = Some cmd /\
  exists e calls,
    Main.main (junk ++ cmd :: rest) alive
    = (e, Main.Start :: Main.Shutdown (String.eqb cmd "force") :: calls) /\
    (forall c, In c calls -> exists t, c = Main.Join t) /\
    (e = Main.Returned -> exists calls', calls = calls' ++ [Main.Join None]).
Proof.
  intros Hj Hc.
  assert (R : Main.read_command (junk ++ cmd :: rest) = Some cmd).
  { induction Hj as [|c junk [N1 N2] _ IH]; simpl.
    - rewrite (proj2 (recognised_iff cmd) Hc). reflexivity.
    - destruct (Main.recognised c) eqn:E; [|assumption].
      apply recognised_iff in E. tauto. }
  split; [assumption|]. unfold Main.main. rewrite R.
  pose proof (wait_server_joins alive) as J.
  destruct (Main.wait_server alive) as [[| |] calls]; simpl in J;
    eexists; eexists; (split; [reflexivity|]); split;
    try discriminate; try (intros c Hin; eexists; apply J; assumption).
  - intros c Hin. apply in_app_or in Hin. destruct Hin as [Hin|[<-|[]]].
    + eexists. apply J. assumption.
    + eexists. reflexivity.
  - intros _. eexists. reflexivity.
Qed.


(** * The further facts on concrete inputs *)

Lemma X1_witness :
  length (Struct.pack_L 258) = 4 /\
  Struct.unpack_L (Struct.pack_L 258) = Some 258%N.
Proof.
  apply (X1_unpack_pack_roundtrip 258). reflexivity.
Defined.

Lemma X2_witness :
  length [x00; x00; x01; x02] = 4 /\ (258 < 4294967296)%N /\
  Struct.pack_L 258 = [x00; x00; x01; x02].
Proof.
  apply (X2_pack_unpack_roundtrip [x00; x00; x01; x02] 258). reflexivity.
Defined.

Lemma X3_witness :
  exists ps',
    Worker._recv_chunk 4 (Sample.slow 4)
      (@Worker.init bytes (Worker.frame Sample.good1) None)
    = (Ret [x00; x00; x00; x02],
       (ps', @Worker.init bytes Sample.good1 None))
    /\ length [x00; x00; x00; x02] = 4.
Proof.
  apply (X3_recv_chunk_reassembles bytes 4 (Sample.slow 4)
           (Worker.init (Worker.frame Sample.good1) None)).
  - reflexivity.
  - simpl. lia.
  - simpl. lia.
Defined.

Lemma X4_witness :
  exists ps',
    Worker._recv_chunk 5 (Sample.eager 3)
      (@Worker.init bytes Sample.good1 None)
    = (Ret [], (ps', @Worker.init bytes [] None)).
Proof.
  apply (X4_recv_chunk_end_of_stream bytes 5 (Sample.eager 3)
           (Worker.init Sample.good1 None)).
  - reflexivity.
  - simpl. lia.
  - simpl. lia.
Defined.

Lemma X5_witness :
  exists ps',
    Sample.run (Sample.eager 8)
      (Worker.init (Struct.pack_L 5 ++ Sample.good1) None)
    = (Ret tt,
       (ps', Worker.LoggingWorkerThread [] None
               [Worker.Unpack (Struct.pack_L 5); Worker.Shutdown;
                Worker.Close])).
Proof.
  apply (X5_truncated_payload bytes bytes Sample.loads Sample.make
           Sample.name Sample.handle
           Sample.connected 5 Sample.good1 (Sample.eager 8)
           (Worker.init (Struct.pack_L 5 ++ Sample.good1) None)).
  - reflexivity.
  - reflexivity.
  - reflexivity.
  - simpl. lia.
  - simpl. lia.
Defined.

Lemma X6_witness :
  exists ps',
    Sample.run (Sample.eager 2) (Worker.init [x00] None)
    = (Ret tt,
       (ps', Worker.LoggingWorkerThread [] None
               [Worker.Shutdown; Worker.Close])).
Proof.
  apply (X6_truncated_prefix bytes bytes Sample.loads Sample.make
           Sample.name Sample.handle
           Sample.connected (Sample.eager 2) (Worker.init [x00] None)).
  - reflexivity.
  - simpl. lia.
  - simpl. lia.
Defined.

Lemma X7_witness :
  Sample.run (repeat Worker.Timeout 2 ++ Worker.Broken :: Sample.eager 1)
    (Worker.init (Worker.frame Sample.good1) None)
  = (Raise OSError,
     (Sample.eager 1,
      Worker.log Worker.Close (Worker.init (Worker.frame Sample.good1) None))).
Proof.
  apply (X7_recv_error_propagates bytes bytes Sample.loads Sample.make
           Sample.name Sample.handle
           Sample.connected 2 (Sample.eager 1)
           (Worker.init (Worker.frame Sample.good1) None)).
  reflexivity.
Defined.

Lemma X8_witness :
  exists ps' w',
    Sample.run (Sample.eager 12)
      (Worker.init
         (Worker.stream [Sample.good1] ++ Worker.frame Sample.bad
          ++ Worker.frame Sample.good2) None)
    = (Raise UnpicklingError, (ps', w')) /\
    Worker.handled_of (Worker.trace w') = [Sample.good1] /\
    Worker.loads_of (Worker.trace w') = [Sample.good1] ++ [Sample.bad] /\
    Worker.wire w' = Worker.frame Sample.good2.
Proof.
  apply (X8_records_before_a_failure bytes bytes Sample.loads Sample.make
           Sample.name Sample.handle
           Sample.connected [Sample.good1] [Sample.good1] Sample.bad
           (Worker.frame Sample.good2) (Sample.eager 12)).
  - repeat constructor.
  - repeat constructor; discriminate.
  - repeat constructor. discriminate.
  - discriminate.
  - reflexivity.
  - reflexivity.
  - vm_compute. lia.
Defined.

Lemma X9_witness :
  exists ps' w0,
    Sample.run (Sample.eager 12)
      (Worker.init
         (Worker.stream [Sample.good1] ++ Worker.frame []
          ++ Worker.frame Sample.good2) None)
    = (if Sample.connected w0 then Ret tt else Raise OSError,
       (ps', Worker.log Worker.Close (Worker.log Worker.Shutdown w0))) /\
    Worker.handled_of (Worker.trace w0) = [Sample.good1] /\
    Worker.loads_of (Worker.trace w0) = [Sample.good1] /\
    Worker.wire w0 = Worker.frame Sample.good2.
Proof.
  apply (X9_records_before_an_empty_payload bytes bytes Sample.loads
           Sample.make Sample.name Sample.handle
           Sample.connected [Sample.good1] [Sample.good1]
           (Worker.frame Sample.good2) (Sample.eager 12)).
  - repeat constructor.
  - repeat constructor; discriminate.
  - repeat constructor. discriminate.
  - vm_compute. lia.
Defined.

Lemma X12_witness :
  Sample.run_reset (Sample.eager 3)
    (Worker.init (Worker.frame Sample.good1) (Some 0))
  = (Raise OSError,
     (Sample.eager 3,
      Worker.LoggingWorkerThread (Worker.frame Sample.good1) (Some 0)
        [Worker.Shutdown; Worker.Close])).
Proof.
  apply (X12_forced_worker_leaves_at_once bytes bytes Sample.loads
           Sample.make Sample.name Sample.handle
           Sample.reset (Sample.eager 3)
           (Worker.init (Worker.frame Sample.good1) (Some 0))).
  reflexivity.
Defined.

Lemma X13_witness :
  let '(r, (ps', _)) :=
    Sample.run (Sample.slow 4)
      (Worker.init (Worker.frame Sample.good1) (Some 3)) in
  length (Sample.slow 4) <= length ps' + 3 /\
  (3 <= length (Sample.slow 4) -> r <> Wait).
Proof.
  apply (X13_stop_within_bounded_polls bytes bytes Sample.loads
           Sample.make Sample.name Sample.handle
           Sample.connected (Sample.slow 4)
           (Worker.init (Worker.frame Sample.good1) (Some 3)) 3).
  reflexivity.
Defined.

Lemma X14_witness :
  Sample.run (repeat Worker.Timeout 2 ++ Sample.eager 7)
    (Worker.init (Worker.frame Sample.good1) None)
  = Sample.run (Sample.eager 7)
      (Worker.init (Worker.frame Sample.good1) None).
Proof.
  apply (X14_timeout_changes_nothing bytes bytes Sample.loads Sample.make
           Sample.name Sample.handle
           Sample.connected 2 (Sample.eager 7)
           (Worker.init (Worker.frame Sample.good1) None)).
  reflexivity.
Defined.

Lemma X15_witness :
  exists s',
    run Up Sample.two_clients [true]
      (LoggingServer (Some 0) Sample.closing_workers 2 [])
    = (Ret tt, s') /\
    forall i, In i (map tid Sample.closing_workers) ->
      In i (forced_of (trace s')) /\ In i (joined_of (trace s')).
Proof.
  apply (X15_forced_shutdown_returns Sample.two_clients []
           (LoggingServer (Some 0) Sample.closing_workers 2 [])).
  reflexivity.
Defined.

Lemma X17_witness :
  exists s',
    run Up Sample.two_clients (repeat false 3 ++ [true])
      (LoggingServer (Some 0) Sample.closing_workers 2 [])
    = (Ret tt, s') /\
    workers s' = [] /\
    forced_of (trace s') = [] /\
    joined_of (trace s') = [] /\
    (forall i, In i (map tid Sample.closing_workers) ->
       In i (ended_of (trace s'))).
Proof.
  apply (X17_graceful_drain_completes 2 Sample.two_clients [true]
           (LoggingServer (Some 0) Sample.closing_workers 2 [])).
  - reflexivity.
  - constructor; [exists 2; split; [reflexivity|lia]|].
    constructor; [exists 0; split; [reflexivity|lia]|].
    constructor.
Defined.


Lemma X19_witness :
  exists s',
    run Up [Incoming None; Timeout; Incoming (Some 1)] [true] (init None)
    = (Wait, s') /\
    length (started_of (trace s'))
    = length (started_of (trace (init None)))
      + length (filter (fun p => match p with
                                 | Incoming _ => true
                                 | _ => false
                                 end)
                  [Incoming None; Timeout; Incoming (Some 1)]) /\
    forced_of (trace s') = forced_of (trace (init None)).
Proof.
  apply (X19_listener_keeps_accepting
           [Incoming None; Timeout; Incoming (Some 1)] [true] (init None)).
  - reflexivity.
  - simpl. intros [H|[H|[H|[]]]]; discriminate.
  - simpl. intros [H|[H|[H|[]]]]; discriminate.
Defined.

Lemma X20_witness :
  Main.read_command (["hello"%string] ++ "force"%string :: ["stop"%string])
  = Some "force"%string /\
  exists e calls,
    Main.main (["hello"%string] ++ "force"%string :: ["stop"%string])
      [true; false]
    = (e, Main.Start :: Main.Shutdown (String.eqb "force" "force") :: calls)
    /\
    (forall c, In c calls -> exists t, c = Main.Join t) /\
    (e = Main.Returned -> exists calls', calls = calls' ++ [Main.Join None]).
Proof.
  apply (X20_first_command_decides ["hello"%string] ["stop"%string]
           "force"%string [true; false]).
  - constructor; [split; discriminate|constructor].
  - right. reflexivity.
Defined.


Lemma X22_witness :
  Worker.loads_of
    (Worker.trace (snd (snd (Sample.run (Sample.eager 7)
       (Worker.init
          (Struct.pack_L (N.of_nat (length Sample.good1)) ++ Sample.good1)
          None))))) = [Sample.good1].
Proof.
  apply (X22_framing_roundtrip_nonempty
           bytes bytes Sample.loads Sample.make Sample.name Sample.handle
           Sample.connected Sample.good1 (Sample.eager 7)).
  - discriminate.
  - reflexivity.
  - simpl. lia.
Defined.

Lemma X23_witness :
  exists ps',
    Sample.run (Sample.eager 9)
      (Worker.init (Worker.frame Sample.nameless ++ Worker.frame Sample.good1)
         None)
    = (Raise LoggingError,
       (ps', Worker.LoggingWorkerThread (Worker.frame Sample.good1) None
               [Worker.Unpack (Struct.pack_L 2); Worker.Loads Sample.nameless;
                Worker.Close])).
Proof.
  apply (X23_dispatch_failure_ends_worker
           bytes bytes Sample.loads Sample.make Sample.name Sample.handle
           Sample.connected Sample.nameless (Worker.frame Sample.good1)
           Sample.nameless (Sample.eager 9)
           (Worker.init
              (Worker.frame Sample.nameless ++ Worker.frame Sample.good1)
              None)).
  - reflexivity.
  - reflexivity.
  - discriminate.
  - reflexivity.
  - reflexivity.
  - reflexivity.
  - simpl. lia.
Defined.
